(** * The application manager's layout cache

    A shallow embedding of
    [mage_ai/frontend/storage/ApplicationManager/cache.ts]: the geometry
    functions, the layout reconciler, the validation pass and the
    create/update/close life cycle of the persisted registry, followed by
    the properties of the specification that were checked against them. *)

From Stdlib Require Import ZArith QArith Qcanon List Lia.
From stdpp Require Import base option list strings gmap.

Set Default Proof Using "Type".

(** ** JavaScript values *)

Module JS.

(** A value that may be [undefined] or [null]. An object's own property is
    an [option] of it: [None] when the object has no such key. *)
Inductive js (A : Type) : Type :=
| undefined
| null
| val (a : A).
Arguments undefined {A}.
Arguments null {A}.
Arguments val {A} a.

Definition prop (A : Type) : Type := option (js A).

#[global] Instance js_eq_dec {A} `{EqDecision A} : EqDecision (js A).
Proof. solve_decision. Defined.

(** [o.k]: reading a key the object does not have gives [undefined]. *)
Definition read {A} (p : prop A) : js A :=
  match p with
  | Some v => v
  | None => undefined
  end.

(** [o?.k] for a projection [k] of the object held by [o]. *)
Definition chain {A B} (o : js A) (k : A -> prop B) : js B :=
  match o with
  | val a => read (k a)
  | _ => undefined
  end.

(** Numbers: the finite ones are exact rationals; rounding and the sign of
    zero are outside the model. *)
Inductive number : Type :=
| NaN
| NegInfinity
| Finite (q : Qc)
| Infinity.

#[global] Instance number_eq_dec : EqDecision number.
Proof. solve_decision. Defined.

Definition int (n : Z) : number := Finite (Q2Qc (inject_Z n)).

(** Sign of a finite number, as a [comparison] with zero. *)
Definition sign (q : Qc) : comparison := (q ?= 0)%Qc.

Definition num_opp (a : number) : number :=
  match a with
  | NaN => NaN
  | NegInfinity => Infinity
  | Finite q => Finite (- q)%Qc
  | Infinity => NegInfinity
  end.

(** [a - b]. *)
Definition num_sub (a b : number) : number :=
  match a, b with
  | NaN, _ | _, NaN => NaN
  | Finite p, Finite q => Finite (p - q)%Qc
  | Infinity, Infinity | NegInfinity, NegInfinity => NaN
  | Infinity, _ | _, NegInfinity => Infinity
  | NegInfinity, _ | _, Infinity => NegInfinity
  end.

(** [a * b]. *)
Definition num_mul (a b : number) : number :=
  let signed (s : comparison) (inf : number) :=
    match s with
    | Eq => NaN
    | Gt => inf
    | Lt => num_opp inf
    end in
  match a, b with
  | NaN, _ | _, NaN => NaN
  | Finite p, Finite q => Finite (p * q)%Qc
  | Finite p, _ => signed (sign p) b
  | _, Finite q => signed (sign q) a
  | Infinity, _ => b
  | NegInfinity, _ => num_opp b
  end.

(** [a / b]; a zero divisor is taken as [+0]. *)
Definition num_div (a b : number) : number :=
  match a, b with
  | NaN, _ | _, NaN => NaN
  | Finite p, Finite q =>
      match sign q, sign p with
      | Eq, Eq => NaN
      | Eq, Gt => Infinity
      | Eq, Lt => NegInfinity
      | _, _ => Finite (p / q)%Qc
      end
  | Finite _, _ => int 0
  | _, Finite q =>
      match sign q with
      | Lt => num_opp a
      | _ => a
      end
  | _, _ => NaN
  end.

(** [a < b] on numbers: false as soon as one side is [NaN]. *)
Definition num_lt (a b : number) : bool :=
  match a, b with
  | NaN, _ | _, NaN => false
  | Finite p, Finite q =>
      match (p ?= q)%Qc with
      | Lt => true
      | _ => false
      end
  | NegInfinity, NegInfinity | Infinity, _ | _, NegInfinity => false
  | NegInfinity, _ | _, Infinity => true
  end.

(** [a >= b] on numbers. *)
Definition num_ge (a b : number) : bool :=
  match a, b with
  | NaN, _ | _, NaN => false
  | _, _ => negb (num_lt a b)
  end.

(** [ToNumber] of a value that is a number, [undefined] or [null]. *)
Definition ToNumber (v : js number) : number :=
  match v with
  | undefined => NaN
  | null => int 0
  | val n => n
  end.

(** [a > b]. *)
Definition gt (a b : js number) : bool := num_lt (ToNumber b) (ToNumber a).

(** [a >= b]. *)
Definition ge (a b : js number) : bool := num_ge (ToNumber a) (ToNumber b).

Definition Math_max (a b : js number) : number :=
  match ToNumber a, ToNumber b with
  | NaN, _ | _, NaN => NaN
  | m, n => if num_lt m n then n else m
  end.

Definition Math_min (a b : js number) : number :=
  match ToNumber a, ToNumber b with
  | NaN, _ | _, NaN => NaN
  | m, n => if num_lt n m then n else m
  end.

(** [ToBoolean]. Objects, enum members (non-empty strings) and arrays are
    truthy; a number is falsy when it is zero or [NaN]. *)
Class Truthy (A : Type) := truthy : A -> bool.

#[global] Instance number_truthy : Truthy number := fun n =>
  match n with
  | NaN => false
  | Finite q => match sign q with Eq => false | _ => true end
  | _ => true
  end.

#[global] Instance js_truthy {A} `{Truthy A} : Truthy (js A) := fun v =>
  match v with
  | val a => truthy a
  | _ => false
  end.

(** [a || b]. *)
Definition or_else {A} `{Truthy A} (a b : A) : A := if truthy a then a else b.

(** [a === b] on enum members, [undefined] and [null]. *)
Definition strict_eq {A} `{EqDecision A} (a b : js A) : bool :=
  bool_decide (a = b).

(** What a call can end in: a value, a thrown error, or [Stuck] when the
    embedding is asked about an address that holds no object (no execution
    of the program does that). *)
Inductive Error : Type := ReferenceError.

Inductive outcome (A : Type) : Type :=
| Returns (a : A)
| Throws (e : Error)
| Stuck.
Arguments Returns {A} a.
Arguments Throws {A} e.
Arguments Stuck {A}.

#[global] Instance Error_eq_dec : EqDecision Error.
Proof. solve_decision. Defined.
#[global] Instance outcome_eq_dec {A} `{EqDecision A} : EqDecision (outcome A).
Proof. solve_decision. Defined.

Definition bind {A B} (c : outcome A) (k : A -> outcome B) : outcome B :=
  match c with
  | Returns a => k a
  | Throws e => Throws e
  | Stuck => Stuck
  end.

End JS.
Import JS.

Declare Scope js_scope.
Delimit Scope js_scope with js.
Notation "a - b" := (num_sub a b) : js_scope.
Notation "a * b" := (num_mul a b) : js_scope.
Notation "a / b" := (num_div a b) : js_scope.
Notation "a === b" := (strict_eq a b) (at level 70, no associativity) : js_scope.
Notation "o ?. k" := (chain o k) (at level 8, k at level 0, left associativity) : js_scope.
Notation "'let?' x := c 'in' k" := (bind c (fun x => k))
  (at level 10, x pattern, c at level 100, k at level 200) : js_scope.

(** ** Types and constants of [./constants] and [@interfaces] *)

Module Constants.

(** Modelled from the spec: the declaration of [StatusEnum] is in
    [./constants], which is not part of the sources at hand. The spec
    names the statuses "OPEN, CLOSED, MINIMIZED, ..."; only [CLOSED]
    against the rest matters to this module. *)
Inductive StatusEnum : Type :=
| ACTIVE
| CLOSED
| INACTIVE
| MINIMIZED
| OPEN.

(** Modelled from the spec: [ApplicationExpansionUUIDEnum] is declared in
    [@interfaces/CommandCenterType]. It is a string enum, the identity of
    an entry; a member is a non-empty string constant (hence truthy) and
    is represented by its ordinal. *)
Inductive ApplicationExpansionUUIDEnum : Type :=
| Member (ordinal : nat).

(** Modelled from the spec: an opaque blob that is passed through. *)
Inductive ApplicationConfiguration : Type :=
| Configuration (blob : string).

#[global] Instance StatusEnum_eq_dec : EqDecision StatusEnum.
Proof. solve_decision. Defined.
#[global] Instance UUID_eq_dec : EqDecision ApplicationExpansionUUIDEnum.
Proof. solve_decision. Defined.
#[global] Instance Configuration_eq_dec : EqDecision ApplicationConfiguration.
Proof. solve_decision. Defined.

#[global] Instance StatusEnum_truthy : Truthy StatusEnum := fun _ => true.
#[global] Instance UUID_truthy : Truthy ApplicationExpansionUUIDEnum :=
  fun _ => true.

Record DimensionType : Type := {
  height : prop number;
  width : prop number;
}.

Record PositionType : Type := {
  x : prop number;
  y : prop number;
  z : prop number;
}.

Record LayoutType : Type := {
  dimension : prop DimensionType;
  position : prop PositionType;
}.

Record StateType : Type := {
  status : prop StatusEnum;
}.

(** Also the shape of the argument of [updateApplication], whose keys
    other than [uuid] are optional. *)
Record ApplicationManagerApplication : Type := {
  applicationConfiguration : prop ApplicationConfiguration;
  layout : prop LayoutType;
  state : prop StateType;
  uuid : ApplicationExpansionUUIDEnum;
}.

#[global] Instance DimensionType_eq_dec : EqDecision DimensionType.
Proof. solve_decision. Defined.
#[global] Instance PositionType_eq_dec : EqDecision PositionType.
Proof. solve_decision. Defined.
#[global] Instance LayoutType_eq_dec : EqDecision LayoutType.
Proof. solve_decision. Defined.
#[global] Instance StateType_eq_dec : EqDecision StateType.
Proof. solve_decision. Defined.
#[global] Instance Application_eq_dec :
  EqDecision ApplicationManagerApplication.
Proof. solve_decision. Defined.

(** Objects are truthy. *)
#[global] Instance DimensionType_truthy : Truthy DimensionType :=
  fun _ => true.
#[global] Instance PositionType_truthy : Truthy PositionType :=
  fun _ => true.
#[global] Instance LayoutType_truthy : Truthy LayoutType := fun _ => true.
#[global] Instance Application_truthy :
  Truthy ApplicationManagerApplication := fun _ => true.
#[global] Instance array_truthy {A} : Truthy (list A) := fun _ => true.

(** Modelled from the spec: the one well-known key of the registry; the
    string itself is declared in [./constants]. *)
Definition LOCAL_STORAGE_KEY_APPLICATION_MANAGER : string :=
  "application_manager".

(** The host: [window] is declared in a browser and is not on a server. *)
Record Window : Type := {
  innerHeight : number;
  innerWidth : number;
}.

End Constants.
Import Constants.

(** ** The helpers of [@utils/hash] *)

Module Hash.

Local Open Scope js_scope.

(** Modelled from the spec: [@utils/hash] is not part of the sources at
    hand. [selectEntriesWithValues] keeps an object's "defined
    (non-null/non-undefined) fields" and drops the other keys. *)
Definition defined {A} (p : prop A) : prop A :=
  match p with
  | Some (val a) => Some (val a)
  | _ => None
  end.

Class Hash (T : Type) := {
  (** the object literal [{}] *)
  empty_object : T;
  selectEntriesWithValues : T -> T;
  (** [{...a, ...b}]: the keys of [a], overwritten by every key [b] has *)
  spread : T -> T -> T;
}.

Definition overlay {A} (a b : prop A) : prop A :=
  match b with
  | Some v => Some v
  | None => a
  end.

#[global] Instance PositionType_hash : Hash PositionType := {|
  empty_object := {| x := None; y := None; z := None |};
  selectEntriesWithValues p :=
    {| x := defined (x p); y := defined (y p); z := defined (z p) |};
  spread a b :=
    {| x := overlay (x a) (x b);
       y := overlay (y a) (y b);
       z := overlay (z a) (z b) |};
|}.

#[global] Instance DimensionType_hash : Hash DimensionType := {|
  empty_object := {| height := None; width := None |};
  selectEntriesWithValues d :=
    {| height := defined (height d); width := defined (width d) |};
  spread a b :=
    {| height := overlay (height a) (height b);
       width := overlay (width a) (width b) |};
|}.

(** Modelled from the spec: [dig(obj, 'a.b')] is the "candidate value" of
    field [b] of field [a] of [obj], [undefined] when something on the way
    is missing. *)
Definition dig (obj : js LayoutType) (key : string) : js number :=
  if decide (key = "dimension.height") then obj?.dimension?.height
  else if decide (key = "dimension.width") then obj?.dimension?.width
  else if decide (key = "position.x") then obj?.position?.x
  else if decide (key = "position.y") then obj?.position?.y
  else if decide (key = "position.z") then obj?.position?.z
  else undefined.

(** The object a path goes through, created when it is not there yet. *)
Definition through {T} `{Hash T} (p : prop T) (f : T -> T) : prop T :=
  match p with
  | Some (val o) => Some (val (f o))
  | _ => Some (val (f empty_object))
  end.

(** Modelled from the spec: [setNested(obj, 'a.b', v)] makes [v] the value
    of field [b] of field [a] of [obj]. *)
Definition setNested (obj : LayoutType) (key : string) (v : js number)
  : LayoutType :=
  let in_dimension f :=
    {| dimension := through (dimension obj) f; position := position obj |} in
  let in_position f :=
    {| dimension := dimension obj; position := through (position obj) f |} in
  if decide (key = "dimension.height") then
    in_dimension (fun d => {| height := Some v; width := width d |})
  else if decide (key = "dimension.width") then
    in_dimension (fun d => {| height := height d; width := Some v |})
  else if decide (key = "position.x") then
    in_position (fun p => {| x := Some v; y := y p; z := z p |})
  else if decide (key = "position.y") then
    in_position (fun p => {| x := x p; y := Some v; z := z p |})
  else if decide (key = "position.z") then
    in_position (fun p => {| x := x p; y := y p; z := Some v |})
  else obj.

End Hash.
Import Hash.

(** ** The store and the objects the caller shares with this module *)

Module Store.

(** An address of an application object. *)
Abbreviation ref := nat (only parsing).

Record world : Type := {
  (** the application objects, by address *)
  heap : list ApplicationManagerApplication;
  (** the durable key-value store *)
  localStorage : gmap string (list (js ApplicationManagerApplication));
}.

#[global] Instance world_eq_dec : EqDecision world.
Proof. solve_decision. Defined.

(** A computation that reads and writes the world and may throw. *)
Definition M (A : Type) : Type := world -> outcome (A * world).

Definition ret {A} (a : A) : M A := fun w => Returns (a, w).

Definition mbind {A B} (c : M A) (k : A -> M B) : M B := fun w =>
  match c w with
  | Returns (a, w') => k a w'
  | Throws e => Throws e
  | Stuck => Stuck
  end.

(** A call of a function that does not touch the world. *)
Definition pure {A} (c : outcome A) : M A := fun w =>
  bind c (fun a => Returns (a, w)).

(** Reading the object at an address. *)
Definition deref (r : ref) : M ApplicationManagerApplication := fun w =>
  match heap w !! r with
  | Some o => Returns (o, w)
  | None => Stuck
  end.

(** The object [o] once [o.layout = l] has run. *)
Definition with_layout (o : ApplicationManagerApplication)
  (l : js LayoutType) : ApplicationManagerApplication :=
  {| applicationConfiguration := applicationConfiguration o;
     layout := Some l;
     state := state o;
     uuid := uuid o |}.

(** [r.layout = l]. *)
Definition assign_layout (r : ref) (l : js LayoutType) : M unit := fun w =>
  match heap w !! r with
  | Some o =>
      Returns (tt, {| heap := <[r := with_layout o l]> (heap w);
                      localStorage := localStorage w |})
  | None => Stuck
  end.

(** A new object. *)
Definition alloc (o : ApplicationManagerApplication) : M ref := fun w =>
  Returns (length (heap w),
           {| heap := heap w ++ [o]; localStorage := localStorage w |}).

(** Modelled from the spec: [../localStorage] is not part of the sources
    at hand. [get(key) -> value|null] and [set(key, value) -> void] over
    one durable key namespace, "value in, value out". *)
Definition get (key : string)
  : M (js (list (js ApplicationManagerApplication))) := fun w =>
  match localStorage w !! key with
  | Some v => Returns (val v, w)
  | None => Returns (null, w)
  end.

Definition set (key : string) (v : list (js ApplicationManagerApplication))
  : M unit := fun w =>
  Returns (tt, {| heap := heap w;
                  localStorage := <[key := v]> (localStorage w) |}).

End Store.
Import Store.

Notation "'let!' x := c 'in' k" := (mbind c (fun x => k))
  (at level 10, x pattern, c at level 100, k at level 200) : js_scope.


(** ** [cache.ts] *)

Module Cache.

Local Open Scope js_scope.

Definition APPLICATION_PADDING : number := int 16.

Definition minimumLayout : LayoutType := {|
  dimension := Some (val {|
    height := Some (val (int 240));
    width := Some (val (int 300));
  |});
  position := Some (val {|
    x := Some (val (int 0));
    y := Some (val (int 0));
    z := Some (val (int 100));
  |});
|}.

(** [typeof window !== 'undefined']. *)
Definition window_defined (window : option Window) : bool :=
  match window with
  | Some _ => true
  | None => false
  end.

(** [window?.k]: resolving the identifier [window] throws where it is not
    declared; the optional chain guards only the member access. *)
Definition window_chain (window : option Window) (k : Window -> number)
  : outcome (js number) :=
  match window with
  | Some w => Returns (val (k w))
  | None => Throws ReferenceError
  end.

(** The argument is the viewport, [None] when the call passes none; the
    default parameter then is [{height: null, width: null}]. In
    [a || b ? c : d] the condition is [a || b]. *)
Definition buildDefaultLayout (window : option Window)
  (viewport : option DimensionType) : outcome LayoutType :=
  let viewport :=
    default {| height := Some null; width := Some null |} viewport in
  let totalHeightProp := read (height viewport) in
  let totalWidthProp := read (width viewport) in
  let? totalHeight :=
    if truthy totalHeightProp || window_defined window
    then window_chain window innerHeight
    else Returns (val (int 1200)) in
  let? totalWidth :=
    if truthy totalWidthProp || window_defined window
    then window_chain window innerWidth
    else Returns (val (int 1500)) in
  let height' :=
    Math_max (val (Math_min totalHeight (val (int 1200)))) (val (int 784))
    - (APPLICATION_PADDING * int 2) in
  let width' :=
    Math_max (val (Math_min totalWidth (val (int 1500)))) (val (int 980))
    - (APPLICATION_PADDING * int 2) in
  Returns {|
    dimension := Some (val {|
      height := Some (val height');
      width := Some (val width');
    |});
    position := Some (val {|
      x := Some (val ((ToNumber totalWidth - width') / int 2));
      y := Some (val ((ToNumber totalHeight - height') / int 2));
      z := Some (val (int 10));
    |});
  |}.


(** [array.filter(a => !!a)]: what is left are objects. *)
Definition compact {A} `{Truthy A} (l : list (js A)) : list A :=
  omap (fun a => match a with val o => if truthy o then Some o else None
                         | _ => None end) l.

(** The arguments are the keys [status] and [uuid] of the filter object,
    [undefined] when the key or the whole argument is left out. After
    [|| []] the value is an array, so the [?.] before [filter] never cuts
    the chain short. *)
Definition getApplications (status' : js StatusEnum)
  (uuid' : js ApplicationExpansionUUIDEnum)
  : M (list ApplicationManagerApplication) :=
  let! stored := get LOCAL_STORAGE_KEY_APPLICATION_MANAGER in
  let arr := compact (match or_else stored (val []) with
                      | val l => l
                      | _ => []
                      end) in
  if (truthy status' || truthy uuid')%bool then
    ret (List.filter (fun app =>
           (negb (truthy status') || ((val app)?.state?.status === status'))
           && (negb (truthy uuid') || (val (uuid app) === uuid')))
         arr)
  else ret arr.

(** [x || {}] for an object that may be missing. *)
Definition or_empty {T} `{Hash T} (o : js T) : T :=
  match o with
  | val o => o
  | _ => empty_object
  end.

(** The object [position] as the merge builds it. *)
Definition merged_position (layout' layoutPrev : js LayoutType)
  : PositionType :=
  spread
    (selectEntriesWithValues (or_empty (layoutPrev?.position)))
    (selectEntriesWithValues (or_empty (layout'?.position))).

(** The object [dimension] as the merge builds it. *)
Definition merged_dimension (layout' layoutPrev : js LayoutType)
  : DimensionType :=
  spread
    (selectEntriesWithValues (or_empty (layoutPrev?.dimension)))
    (selectEntriesWithValues (or_empty (layout'?.dimension))).

(** After the merge, the clamp to the default size writes into the two
    merged objects. *)
Definition updateLayout (window : option Window)
  (layout' layoutPrev : js LayoutType) : outcome LayoutType :=
  if negb (truthy layout') && negb (truthy layoutPrev) then
    buildDefaultLayout window None
  else
    let position' := merged_position layout' layoutPrev in
    let dimension' := merged_dimension layout' layoutPrev in
    let? defaultLayout := buildDefaultLayout window None in
    let dimensionDefault := read (dimension defaultLayout) in
    let positionDefault := read (position defaultLayout) in
    let '(dimension', position') :=
      if gt (read (height dimension')) (dimensionDefault?.height) then
        ({| height := Some (dimensionDefault?.height);
            width := width dimension' |},
         {| x := x position';
            y := Some (positionDefault?.y);
            z := z position' |})
      else (dimension', position') in
    let '(dimension', position') :=
      if gt (read (width dimension')) (dimensionDefault?.width) then
        ({| height := height dimension';
            width := Some (dimensionDefault?.width) |},
         {| x := Some (positionDefault?.x);
            y := y position';
            z := z position' |})
      else (dimension', position') in
    Returns {|
      dimension := Some (val dimension');
      position := Some (val position');
    |}.

(** [layoutNew] is a fresh object, filled key by key and then made the
    layout of [app]; [app] itself is returned. *)
Definition validateLayout (app : ref) : M ref :=
  let! o := deref app in
  let layout' := read (layout o) in
  let layoutNew := {|
    dimension := Some (val {|
      height := Some null;
      width := Some null;
    |});
    position := Some (val {|
      x := Some null;
      y := Some null;
      z := Some null;
    |});
  |} in
  let layoutNew :=
    fold_left (fun layoutNew key =>
      setNested layoutNew key (val (Math_max
        (or_else (dig layout' key) (val (int 0)))
        (dig (val minimumLayout) key))))
      ["dimension.height"; "dimension.width"; "position.x"; "position.y"]
      layoutNew in
  let! _ := assign_layout app (val layoutNew) in
  ret app.

(** [array.findIndex(p)]: the first index [p] holds at, [-1] when none. *)
Fixpoint findIndex_from {A} (p : A -> bool) (l : list A) (i : Z) : Z :=
  match l with
  | [] => -1
  | a :: l' => if p a then i else findIndex_from p l' (i + 1)
  end.

Definition findIndex {A} (p : A -> bool) (l : list A) : Z :=
  findIndex_from p l 0.

(** [array?.[index]] on an array. *)
Definition at_index {A} (l : list A) (index : Z) : js A :=
  if (index <? 0)%Z then undefined
  else match l !! Z.to_nat index with
       | Some a => val a
       | None => undefined
       end.

(** [{...(app || {}), ...application}]: every key of [application] that is
    there wins, [uuid] among them. *)
Definition spread_application (app : js ApplicationManagerApplication)
  (application : ApplicationManagerApplication)
  : ApplicationManagerApplication :=
  let own {A} (k : ApplicationManagerApplication -> prop A) : prop A :=
    match app with
    | val a => overlay (k a) (k application)
    | _ => overlay None (k application)   (* [{}] has no key *)
    end in
  {| applicationConfiguration := own applicationConfiguration;
     layout := own layout;
     state := own state;
     uuid := uuid application |}.

(** [application] is the caller's object. The array [apps] holds the
    objects it was parsed into, which nothing writes to; [appUpdated] goes
    into it as the object is after [validateLayout], its last write. The
    result is [undefined] or the address of [appUpdated]. *)
Definition updateApplication (window : option Window) (application : ref)
  : M (js ref) :=
  let! o := deref application in
  let state' := read (state o) in
  let uuid' := uuid o in
  let! apps := getApplications undefined undefined in
  if state'?.status === val CLOSED then
    let apps := List.filter (fun a => negb (bool_decide (uuid' = uuid a))) apps in
    let! _ := set LOCAL_STORAGE_KEY_APPLICATION_MANAGER
                (List.filter truthy (val <$> apps)) in
    ret undefined
  else
    let index := findIndex (fun a => bool_decide (uuid' = uuid a)) apps in
    let app := at_index apps index in
    let! merged := pure (updateLayout window (read (layout o)) (app?.layout)) in
    let! _ := assign_layout application (val merged) in
    let! o := deref application in
    let! appUpdated := alloc (spread_application app o) in
    let! appUpdated := validateLayout appUpdated in
    let! v := deref appUpdated in
    let apps :=
      if (index >=? 0)%Z then <[Z.to_nat index := v]> apps
      else apps ++ [v] in
    let! _ := set LOCAL_STORAGE_KEY_APPLICATION_MANAGER
                (List.filter truthy (val <$> apps)) in
    ret (val appUpdated).

(** The argument object is a literal of the function's own. *)
Definition closeApplication (window : option Window)
  (uuid' : ApplicationExpansionUUIDEnum) : M unit :=
  let! application := alloc {|
    applicationConfiguration := None;
    layout := None;
    state := Some (val {| status := Some (val CLOSED) |});
    uuid := uuid';
  |} in
  let! _ := updateApplication window application in
  ret tt.

Definition getCurrentlyOpenedApplications
  : M (list ApplicationManagerApplication) :=
  let! apps := getApplications undefined undefined in
  ret (List.filter (fun a =>
         negb ((val a)?.state?.status === val CLOSED)) apps).

End Cache.
Import Cache.

(** * Vocabulary of the statements *)

Module Statements.

(** ** The validation pass in closed form *)

(** The value the loop writes under [key]. *)
Definition floored (l : js LayoutType) (key : string) : number :=
  Math_max (or_else (dig l key) (val (int 0))) (dig (val minimumLayout) key).

(** [layoutNew] when the loop is over. *)
Definition validated (l : js LayoutType) : LayoutType := {|
  dimension := Some (val {|
    height := Some (val (floored l "dimension.height"));
    width := Some (val (floored l "dimension.width"));
  |});
  position := Some (val {|
    x := Some (val (floored l "position.x"));
    y := Some (val (floored l "position.y"));
    z := Some null;
  |});
|}.

(** The keys of the loop, each with the minimum the specification states
    for it. *)
Definition floor_keys : list (string * Z) :=
  [("dimension.height", 240%Z); ("dimension.width", 300%Z);
   ("position.x", 0%Z); ("position.y", 0%Z)].

(** ** The merge field by field *)

Definition is_defined {A} (v : js A) : bool :=
  match v with
  | val _ => true
  | _ => false
  end.

(** The merged value of one field: the new one where it is defined, else
    the previous one where that is defined, else nothing. *)
Definition overlaid (previous new : js number) : js number :=
  if is_defined new then new
  else if is_defined previous then previous
  else undefined.

Definition layout_keys : list string :=
  ["dimension.height"; "dimension.width";
   "position.x"; "position.y"; "position.z"].

(** Whether the clamp to the default size overwrites [key], given the
    default layout [d], the new layout [l] and the previous one [lp]. *)
Definition clamped (d : LayoutType) (l lp : js LayoutType) (key : string)
  : bool :=
  if decide (key = "dimension.height" \/ key = "position.y") then
    gt (overlaid (dig lp "dimension.height") (dig l "dimension.height"))
       (dig (val d) "dimension.height")
  else if decide (key = "dimension.width" \/ key = "position.x") then
    gt (overlaid (dig lp "dimension.width") (dig l "dimension.width"))
       (dig (val d) "dimension.width")
  else false.

(** ** The registry *)

(** The entries a call reads: the stored array without its empty slots. *)
Definition registry (w : world) : list ApplicationManagerApplication :=
  compact (default [] (localStorage w !! LOCAL_STORAGE_KEY_APPLICATION_MANAGER)).

(** The filter of [getApplications]. *)
Definition matches (status' : js StatusEnum)
  (uuid' : js ApplicationExpansionUUIDEnum)
  (o : ApplicationManagerApplication) : bool :=
  (negb (truthy status')
     || strict_eq (chain (chain (val o) state) status) status')
  && (negb (truthy uuid') || strict_eq (val (uuid o)) uuid').

(** The entry [updateApplication] finds for [X], if there is one. *)
Definition found (apps : list ApplicationManagerApplication)
  (X : ApplicationExpansionUUIDEnum) : js ApplicationManagerApplication :=
  at_index apps (findIndex (fun a => bool_decide (X = uuid a)) apps).

(** The array once the entry [e] has replaced the one found or has been
    pushed. *)
Definition placed (apps : list ApplicationManagerApplication)
  (X : ApplicationExpansionUUIDEnum) (e : ApplicationManagerApplication)
  : list ApplicationManagerApplication :=
  let index := findIndex (fun a => bool_decide (X = uuid a)) apps in
  if (index >=? 0)%Z then <[Z.to_nat index := e]> apps else apps ++ [e].

(** A caller that makes one call after the other, each with an object
    literal of its own, in a host whose window may change in between. *)
Fixpoint updateApplications
  (calls : list (option Window * ApplicationManagerApplication)) : M unit :=
  match calls with
  | [] => ret tt
  | (window, literal) :: calls =>
      (let! application := alloc literal in
       let! _ := updateApplication window application in
       updateApplications calls)%js
  end.

End Statements.
Import Statements.

(** ** Concrete hosts, layouts and entries *)

Module Examples.

(** A browser window of 1000 x 1600 and a viewport of 900 x 1000. *)
Definition window_1000_by_1600 : Window :=
  {| innerHeight := int 1000; innerWidth := int 1600 |}.

Definition viewport_900_by_1000 : DimensionType :=
  {| height := Some (val (int 900)); width := Some (val (int 1000)) |}.

(** An entry without a layout, and a world that holds it at address 0. *)
Definition bare_entry : ApplicationManagerApplication :=
  {| applicationConfiguration := None;
     layout := None;
     state := None;
     uuid := Member 0 |}.

Definition bare_world : world :=
  {| heap := [bare_entry]; localStorage := ∅ |}.

(** An entry whose layout has only [position.z = 10]. *)
Definition entry_with_z : ApplicationManagerApplication :=
  {| applicationConfiguration := None;
     layout := Some (val {|
       dimension := None;
       position := Some (val {| x := None; y := None;
                                z := Some (val (int 10)) |});
     |});
     state := None;
     uuid := Member 0 |}.

(** A window 800 high, the layout of an entry stored while the window was
    larger, and an update that only moves it sideways. *)
Definition window_800_by_1600 : Window :=
  {| innerHeight := int 800; innerWidth := int 1600 |}.

Definition layout_stored : LayoutType :=
  {| dimension := Some (val {| height := Some (val (int 1168));
                               width := Some (val (int 1468)) |});
     position := Some (val {| x := Some (val (int 50));
                              y := Some (val (int 60));
                              z := Some (val (int 10)) |}) |}.

Definition layout_move_x : LayoutType :=
  {| dimension := None;
     position := Some (val {| x := Some (val (int 999));
                              y := None; z := None |}) |}.

(** A caller's object that opens application 0 with a layout too large,
    and the object of a call that closes application 0. *)
Definition patch_open : ApplicationManagerApplication :=
  {| applicationConfiguration := None;
     layout := Some (val {|
       dimension := Some (val {| height := Some (val (int 2000));
                                 width := Some (val (int 2000)) |});
       position := None;
     |});
     state := Some (val {| status := Some (val OPEN) |});
     uuid := Member 0 |}.

Definition patch_close : ApplicationManagerApplication :=
  {| applicationConfiguration := None;
     layout := None;
     state := Some (val {| status := Some (val CLOSED) |});
     uuid := Member 0 |}.

(** A world where [patch_open] sits at address 0 and nothing is stored
    yet, and one where [patch_close] does and application 0 is stored. *)
Definition world_open : world :=
  {| heap := [patch_open]; localStorage := ∅ |}.

Definition world_close : world :=
  {| heap := [patch_close];
     localStorage := {[ LOCAL_STORAGE_KEY_APPLICATION_MANAGER :=
                          [val (with_layout patch_open
                                  (val (validated (read (layout patch_open)))))] ]} |}.

End Examples.
Import Examples.

(** ** Conditions on hosts and registries *)

Module Conditions.

(** The sizes of the window, where there is one, are numbers other than
    [NaN]. *)
Definition window_sized (window : option Window) : Prop :=
  match window with
  | Some win => innerHeight win <> NaN /\ innerWidth win <> NaN
  | None => True
  end.

(** [state?.status === StatusEnum.CLOSED] for an entry. *)
Definition is_closed (o : ApplicationManagerApplication) : bool :=
  strict_eq (chain (chain (val o) state) status) (val CLOSED).

(** The callback of the filters on the uuid in [updateApplication]. *)
Definition other_than (X : ApplicationExpansionUUIDEnum)
  (a : ApplicationManagerApplication) : bool :=
  negb (bool_decide (X = uuid a)).

(** Every floor of the validation pass holds of the layout of [e]. *)
Definition floors_hold (e : ApplicationManagerApplication) : Prop :=
  forall key k, (key, k) ∈ floor_keys ->
    ge (dig (read (layout e)) key) (val (int k)) = true.

End Conditions.
Import Conditions.

(** ** More concrete layouts *)

Module MoreExamples.

(** The default layout in a window of 800 x 1600. *)
Definition layout_default_800 : LayoutType :=
  {| dimension := Some (val {| height := Some (val (int 768));
                               width := Some (val (int 1468)) |});
     position := Some (val {| x := Some (val (int 66));
                              y := Some (val (int 16));
                              z := Some (val (int 10)) |}) |}.

(** A window within the range of the default layout. *)
Definition window_1000_by_1400 : Window :=
  {| innerHeight := int 1000; innerWidth := int 1400 |}.

(** A world where [patch_open] sits at address 0 and application 0 is
    stored already. *)
Definition world_reopen : world :=
  {| heap := [patch_open]; localStorage := localStorage world_close |}.

(** A caller's object that moves application 0 and says nothing of its
    state, in a world where application 0 is stored. *)
Definition patch_move : ApplicationManagerApplication :=
  {| applicationConfiguration := None;
     layout := Some (val layout_move_x);
     state := None;
     uuid := Member 0 |}.

Definition world_move : world :=
  {| heap := [patch_move]; localStorage := localStorage world_close |}.

End MoreExamples.
Import MoreExamples.

(** * Properties *)

(** ** Numbers *)

Section numbers.

Implicit Types (m n : number) (a b : js number) (q : Qc).

Lemma num_lt_irrefl n : num_lt n n = false.
Proof.
  destruct n as [| |q|]; simpl; try reflexivity.
  replace (q ?= q)%Qc with Eq; [reflexivity|].
  symmetry. by apply Qceq_alt.
Qed.

Lemma zero_is_int_0 q : sign q = Eq -> Finite q = int 0.
Proof.
  unfold sign. intros Hq%Qceq_alt. by subst q.
Qed.

(** A falsy number is zero or [NaN]. *)
Lemma falsy_number n : truthy n = false -> n = NaN \/ n = int 0.
Proof.
  destruct n as [| |q|]; simpl; try discriminate; [by left|].
  unfold truthy, number_truthy.
  destruct (sign q) eqn:Hq; try discriminate.
  intros _. right. by apply zero_is_int_0.
Qed.

(** What [candidate || 0] leaves is a number, and never [NaN]. *)
Lemma or_zero_number a :
  exists n, or_else a (val (int 0)) = val n /\ n <> NaN.
Proof.
  unfold or_else. destruct (truthy a) eqn:Ha.
  - destruct a as [| |n]; simpl in Ha; try discriminate.
    exists n. split; [reflexivity|]. intros ->. discriminate.
  - exists (int 0). split; [reflexivity|discriminate].
Qed.

Lemma or_zero_falsy a :
  truthy a = false -> or_else a (val (int 0)) = val (int 0).
Proof. unfold or_else. by intros ->. Qed.

Lemma Math_max_numbers m n :
  m <> NaN -> n <> NaN ->
  Math_max (val m) (val n) = if num_lt m n then n else m.
Proof. unfold Math_max. simpl. by destruct m, n. Qed.

Lemma Math_max_not_NaN m n :
  m <> NaN -> n <> NaN -> Math_max (val m) (val n) <> NaN.
Proof.
  intros Hm Hn. rewrite Math_max_numbers by done. by destruct (num_lt m n).
Qed.

(** The floor: the larger of the two is at least the second. *)
Lemma Math_max_ge_r m n :
  m <> NaN -> n <> NaN -> num_ge (Math_max (val m) (val n)) n = true.
Proof.
  intros Hm Hn. rewrite Math_max_numbers by done.
  destruct (num_lt m n) eqn:Hlt.
  - unfold num_ge. rewrite num_lt_irrefl. by destruct n.
  - unfold num_ge. rewrite Hlt. by destruct m, n.
Qed.

(** Taking the floor a second time changes nothing. *)
Lemma Math_max_idem m n :
  m <> NaN -> n <> NaN ->
  Math_max (val (Math_max (val m) (val n))) (val n) = Math_max (val m) (val n).
Proof.
  intros Hm Hn. rewrite (Math_max_numbers m n) by done.
  destruct (num_lt m n) eqn:Hlt.
  - rewrite Math_max_numbers by done. by rewrite num_lt_irrefl.
  - rewrite Math_max_numbers by done. by rewrite Hlt.
Qed.

(** [n || 0] is [n] again for a number other than [NaN]. *)
Lemma or_zero_fixed n : n <> NaN -> or_else (val n) (val (int 0)) = val n.
Proof.
  intros Hn. unfold or_else. destruct (truthy (val n)) eqn:Ht; [done|].
  by destruct (falsy_number n Ht) as [->| ->].
Qed.

End numbers.

(** Case analysis on a key of the loop, or on a key of a layout. *)
Ltac each_floor_key H :=
  unfold floor_keys in H; rewrite !elem_of_cons, elem_of_nil in H;
  destruct H as [[= -> ->]|[[= -> ->]|[[= -> ->]|[[= -> ->]|[]]]]].

Ltac each_layout_key H :=
  unfold layout_keys in H; rewrite !elem_of_cons, elem_of_nil in H;
  destruct H as [->|[->|[->|[->|[->|[]]]]]].

(** ** The validation pass *)

Section validation.

Implicit Types (w : world) (o : ApplicationManagerApplication)
  (l : js LayoutType) (app : ref) (key : string).

Lemma validateLayout_run app w o :
  heap w !! app = Some o ->
  validateLayout app w =
    Returns (app, {| heap := <[app := with_layout o (val (validated (read (layout o))))]> (heap w);
                     localStorage := localStorage w |}).
Proof.
  intros Ho. unfold validateLayout, mbind, deref, assign_layout, ret.
  rewrite Ho. cbv beta iota zeta. rewrite Ho. reflexivity.
Qed.

Lemma validateLayout_stuck app w :
  heap w !! app = None -> validateLayout app w = Stuck.
Proof.
  intros Ho. unfold validateLayout, mbind, deref. by rewrite Ho.
Qed.

Lemma dig_minimumLayout key k :
  (key, k) ∈ floor_keys -> dig (val minimumLayout) key = val (int k).
Proof. intros Hk. each_floor_key Hk; reflexivity. Qed.

Lemma dig_validated l key k :
  (key, k) ∈ floor_keys -> dig (val (validated l)) key = val (floored l key).
Proof. intros Hk. each_floor_key Hk; reflexivity. Qed.

Lemma floored_ge l key k :
  (key, k) ∈ floor_keys -> num_ge (floored l key) (int k) = true.
Proof.
  intros Hk. unfold floored. rewrite (dig_minimumLayout _ _ Hk).
  destruct (or_zero_number (dig l key)) as (n & -> & Hn).
  by apply Math_max_ge_r.
Qed.

Lemma floored_not_NaN l key k : (key, k) ∈ floor_keys -> floored l key <> NaN.
Proof.
  intros Hk. unfold floored. rewrite (dig_minimumLayout _ _ Hk).
  destruct (or_zero_number (dig l key)) as (n & -> & Hn).
  by apply Math_max_not_NaN.
Qed.

(** A missing or falsy candidate leaves the minimum. *)
Lemma floored_falsy l key k :
  (key, k) ∈ floor_keys -> truthy (dig l key) = false ->
  floored l key = int k.
Proof.
  intros Hk Hf. unfold floored.
  rewrite (dig_minimumLayout _ _ Hk), (or_zero_falsy _ Hf).
  each_floor_key Hk; reflexivity.
Qed.

Lemma floored_validated l key k :
  (key, k) ∈ floor_keys -> floored (val (validated l)) key = floored l key.
Proof.
  intros Hk. unfold floored at 1.
  rewrite (dig_validated _ _ _ Hk), (dig_minimumLayout _ _ Hk).
  rewrite or_zero_fixed by eauto using floored_not_NaN.
  unfold floored. rewrite (dig_minimumLayout _ _ Hk).
  destruct (or_zero_number (dig l key)) as (n & -> & Hn).
  by apply Math_max_idem.
Qed.

Lemma validated_idem l : validated (val (validated l)) = validated l.
Proof.
  assert (forall key k, (key, k) ∈ floor_keys ->
    floored (val (validated l)) key = floored l key) as Hfloor
    by eauto using floored_validated.
  change (validated (val (validated l))) with {|
    dimension := Some (val {|
      height := Some (val (floored (val (validated l)) "dimension.height"));
      width := Some (val (floored (val (validated l)) "dimension.width"));
    |});
    position := Some (val {|
      x := Some (val (floored (val (validated l)) "position.x"));
      y := Some (val (floored (val (validated l)) "position.y"));
      z := Some null;
    |});
  |}.
  rewrite (Hfloor "dimension.height" 240%Z), (Hfloor "dimension.width" 300%Z),
    (Hfloor "position.x" 0%Z), (Hfloor "position.y" 0%Z);
    try reflexivity; unfold floor_keys; rewrite !elem_of_cons; auto 6.
Qed.

End validation.

(** ** The geometry and the reconciler *)

Section reconciler.

Implicit Types (window : option Window) (l lp : js LayoutType)
  (d r : LayoutType) (key : string).

(** Without an argument the default layout is always there: [window] is
    only looked at where it is declared. *)
Lemma buildDefaultLayout_no_argument window :
  exists dimensionDefault positionDefault,
    buildDefaultLayout window None =
      Returns {| dimension := Some (val dimensionDefault);
                 position := Some (val positionDefault) |}.
Proof. destruct window as [win|]; cbn; eauto. Qed.

Lemma read_overlay_defined (previous new : prop number) :
  read (overlay (defined previous) (defined new)) =
    overlaid (read previous) (read new).
Proof. by destruct previous as [[]|], new as [[]|]. Qed.

Lemma dig_or_empty l :
  dig l "dimension.height" = read (height (or_empty (l?.dimension)%js)) /\
  dig l "dimension.width" = read (width (or_empty (l?.dimension)%js)) /\
  dig l "position.x" = read (x (or_empty (l?.position)%js)) /\
  dig l "position.y" = read (y (or_empty (l?.position)%js)) /\
  dig l "position.z" = read (z (or_empty (l?.position)%js)).
Proof. by destruct l as [| |[[[| |?]|] [[| |?]|]]]. Qed.

(** The merge, field by field. *)
Lemma dig_merged l lp key :
  key ∈ layout_keys ->
  dig (val {| dimension := Some (val (merged_dimension l lp));
              position := Some (val (merged_position l lp)) |}) key =
    overlaid (dig lp key) (dig l key).
Proof.
  intros Hkey.
  destruct (dig_or_empty l) as (Hh & Hw & Hx & Hy & Hz).
  destruct (dig_or_empty lp) as (Hh' & Hw' & Hx' & Hy' & Hz').
  each_layout_key Hkey;
    rewrite ?Hh, ?Hh', ?Hw, ?Hw', ?Hx, ?Hx', ?Hy, ?Hy', ?Hz, ?Hz';
    rewrite <- read_overlay_defined; reflexivity.
Qed.

Lemma clamped_keys d l lp :
  let over_height :=
    gt (overlaid (dig lp "dimension.height") (dig l "dimension.height"))
       (dig (val d) "dimension.height") in
  let over_width :=
    gt (overlaid (dig lp "dimension.width") (dig l "dimension.width"))
       (dig (val d) "dimension.width") in
  clamped d l lp "dimension.height" = over_height /\
  clamped d l lp "position.y" = over_height /\
  clamped d l lp "dimension.width" = over_width /\
  clamped d l lp "position.x" = over_width /\
  clamped d l lp "position.z" = false.
Proof. repeat split. Qed.

(** [updateLayout] once one of the two layouts is there. *)
Lemma updateLayout_run window l lp d :
  (negb (truthy l) && negb (truthy lp))%bool = false ->
  buildDefaultLayout window None = Returns d ->
  exists r,
    updateLayout window l lp = Returns r /\
    forall key, key ∈ layout_keys ->
      dig (val r) key =
        if clamped d l lp key then dig (val d) key
        else overlaid (dig lp key) (dig l key).
Proof.
  intros Hsome Hd. unfold updateLayout. rewrite Hsome, Hd. cbn [bind].
  pose proof (dig_merged l lp) as Hmerged.
  destruct (clamped_keys d l lp) as (Hh & Hy & Hw & Hx & Hz).
  cbv zeta in Hh, Hy, Hw, Hx.
  assert (clamped d l lp "position.y" = clamped d l lp "dimension.height")
    as Hyh by (by rewrite Hh, Hy).
  assert (clamped d l lp "position.x" = clamped d l lp "dimension.width")
    as Hxw by (by rewrite Hw, Hx).
  clear Hx Hy.
  rewrite <- !Hmerged in Hh, Hw by set_solver.
  assert (gt (read (height (merged_dimension l lp)))
            ((read (dimension d))?.height)%js =
          clamped d l lp "dimension.height") as ->.
  { rewrite Hh. by destruct d as [[[| |?]|] ?]. }
  assert (forall D, width D = width (merged_dimension l lp) ->
            gt (read (width D)) ((read (dimension d))?.width)%js =
            clamped d l lp "dimension.width") as Hwidth.
  { intros D ->. rewrite Hw. by destruct d as [[[| |?]|] ?]. }
  clear Hh Hw.
  destruct (clamped d l lp "dimension.height") eqn:Hh;
    cbv beta iota zeta; erewrite Hwidth by reflexivity;
    destruct (clamped d l lp "dimension.width") eqn:Hw;
    (eexists; split; [reflexivity|]);
    intros key Hkey; each_layout_key Hkey;
    rewrite ?Hz, ?Hyh, ?Hxw, ?Hh, ?Hw;
    try (rewrite <- Hmerged by set_solver);
    try reflexivity;
    by destruct d as [[[| |[]]|] [[| |[]]|]].
Qed.

(** Where [window] is declared the argument makes no difference: the
    condition [prop || typeof window !== 'undefined'] holds whatever the
    argument is, and the branch it selects reads [window]. *)
Lemma buildDefaultLayout_window (win : Window) (viewport : option DimensionType) :
  buildDefaultLayout (Some win) viewport = buildDefaultLayout (Some win) None.
Proof.
  unfold buildDefaultLayout. cbn [window_defined].
  by rewrite !orb_true_r.
Qed.

(** The reconciler always returns a layout. *)
Lemma updateLayout_returns window l lp :
  exists r, updateLayout window l lp = Returns r.
Proof.
  destruct (buildDefaultLayout_no_argument window) as (dd & pd & Hd).
  destruct (negb (truthy l) && negb (truthy lp))%bool eqn:Hsome.
  - unfold updateLayout. rewrite Hsome. eauto.
  - destruct (updateLayout_run window l lp _ Hsome Hd) as (r & -> & _). eauto.
Qed.

End reconciler.

(** ** The registry and the life cycle *)

Section lifecycle.

Implicit Types (window : option Window) (w : world)
  (o e : ApplicationManagerApplication)
  (apps : list ApplicationManagerApplication)
  (X : ApplicationExpansionUUIDEnum) (application : ref).

Lemma getApplications_run status' uuid' w :
  getApplications status' uuid' w =
    Returns (if (truthy status' || truthy uuid')%bool
             then List.filter (matches status' uuid') (registry w)
             else registry w, w).
Proof.
  unfold getApplications, mbind, get, registry.
  destruct (localStorage w !! LOCAL_STORAGE_KEY_APPLICATION_MANAGER);
    cbn; by destruct (truthy status' || truthy uuid')%bool.
Qed.

Lemma compact_objects apps : compact (val <$> apps) = apps.
Proof. induction apps as [|a apps IH]; [done|]. cbn. by f_equal. Qed.

Lemma filter_truthy_objects apps :
  List.filter truthy (val <$> apps) = val <$> apps.
Proof. induction apps as [|a apps IH]; [done|]. cbn. by f_equal. Qed.

(** What [set] leaves is what the next call reads. *)
Lemma registry_set apps (h : list ApplicationManagerApplication) w :
  registry {| heap := h;
              localStorage := <[LOCAL_STORAGE_KEY_APPLICATION_MANAGER :=
                                  List.filter truthy (val <$> apps)]>
                                (localStorage w) |} = apps.
Proof.
  unfold registry. cbn [localStorage]. rewrite lookup_insert_eq.
  change (compact (List.filter truthy (val <$> apps)) = apps).
  by rewrite filter_truthy_objects, compact_objects.
Qed.

Lemma findIndex_from_spec {A} (p : A -> bool) (l : list A) (i : Z) :
  (findIndex_from p l i = -1 /\ Forall (fun a => p a = false) l)%Z \/
  (exists k a, findIndex_from p l i = (i + Z.of_nat k)%Z /\
               l !! k = Some a /\ p a = true).
Proof.
  revert i. induction l as [|a l IH]; intros i; cbn.
  - left. by split.
  - destruct (p a) eqn:Hp.
    + right. exists 0%nat, a. repeat split; [lia|done].
    + destruct (IH (i + 1)%Z) as [[-> Hall]|(k & b & -> & Hk & Hb)].
      * left. split; [done|]. by constructor.
      * right. exists (S k), b. repeat split; [lia|done..].
Qed.

Lemma findIndex_spec {A} (p : A -> bool) (l : list A) :
  (findIndex p l = -1 /\ Forall (fun a => p a = false) l)%Z \/
  (exists k a, findIndex p l = Z.of_nat k /\ l !! k = Some a /\ p a = true).
Proof.
  destruct (findIndex_from_spec p l 0) as [?|(k & a & ? & ? & ?)]; [by left|].
  right. exists k, a. by rewrite <- (Z.add_0_l (Z.of_nat k)).
Qed.

(** A call that closes. *)
Lemma updateApplication_close window application w o :
  heap w !! application = Some o ->
  ((read (state o))?.status === val CLOSED)%js = true ->
  updateApplication window application w =
    Returns (undefined,
             {| heap := heap w;
                localStorage :=
                  <[LOCAL_STORAGE_KEY_APPLICATION_MANAGER :=
                      List.filter truthy
                        (val <$> List.filter
                                   (fun a => negb (bool_decide (uuid o = uuid a)))
                                   (registry w))]>
                    (localStorage w) |}).
Proof.
  intros Ho Hclosed. unfold updateApplication, mbind at 1, deref.
  rewrite Ho. unfold mbind at 1. rewrite getApplications_run. cbn [truthy js_truthy orb].
  rewrite Hclosed. reflexivity.
Qed.

(** A call that does not close. *)
Lemma updateApplication_open window application w o :
  heap w !! application = Some o ->
  ((read (state o))?.status === val CLOSED)%js = false ->
  exists merged,
    updateLayout window (read (layout o))
      ((found (registry w) (uuid o))?.layout)%js = Returns merged /\
    let patched := with_layout o (val merged) in
    let e := with_layout
               (spread_application (found (registry w) (uuid o)) patched)
               (val (validated (val merged))) in
    updateApplication window application w =
      Returns (val (length (heap w)),
               {| heap := <[application := patched]> (heap w) ++ [e];
                  localStorage :=
                    <[LOCAL_STORAGE_KEY_APPLICATION_MANAGER :=
                        List.filter truthy
                          (val <$> placed (registry w) (uuid o) e)]>
                      (localStorage w) |}).
Proof.
  intros Ho Hopen.
  destruct (updateLayout_returns window (read (layout o))
              ((found (registry w) (uuid o))?.layout)%js) as [merged Hm].
  exists merged. split; [done|]. intros patched e.
  assert (application < length (heap w))%nat as Hlt
    by (by eapply lookup_lt_Some).
  unfold updateApplication, mbind at 1, deref.
  rewrite Ho. unfold mbind at 1. rewrite getApplications_run.
  cbn [truthy js_truthy orb]. rewrite Hopen.
  fold (found (registry w) (uuid o)).
  unfold mbind at 1, pure. rewrite Hm. cbn [bind].
  unfold mbind at 1, assign_layout. rewrite Ho.
  unfold mbind at 1. cbn [heap localStorage].
  rewrite list_lookup_insert_eq by done. fold patched.
  unfold mbind at 1, alloc. cbn [heap localStorage].
  unfold mbind at 1. rewrite length_insert.
  erewrite validateLayout_run; last first.
  { cbn [heap]. rewrite lookup_app_r; rewrite length_insert; [|done].
    by rewrite Nat.sub_diag. }
  cbn [heap localStorage].
  unfold mbind at 1. cbn [heap].
  assert (<[length (heap w) := with_layout
                (spread_application (found (registry w) (uuid o)) patched)
                (val (validated (read (layout
                   (spread_application (found (registry w) (uuid o)) patched)))))]>
            (<[application := patched]> (heap w) ++
               [spread_application (found (registry w) (uuid o)) patched]) =
          <[application := patched]> (heap w) ++ [e]) as ->.
  { rewrite insert_app_r_alt; rewrite length_insert; [|done].
    rewrite Nat.sub_diag. cbn. subst e. repeat f_equal.
    unfold spread_application, patched. by destruct (found _ _). }
  rewrite lookup_app_r; rewrite length_insert; [|done].
  rewrite Nat.sub_diag. cbn [lookup list_lookup].
  reflexivity.
Qed.

End lifecycle.

(** * The claims of the specification *)

(** ** Default layout *)

(** C9. With no window to look at and no argument, [buildDefaultLayout]
    returns a layout whose height, 1168, is within [784, 1200] and whose
    width, 1468, is within [980, 1500], centred in 1200 x 1500:
    [x = (1500 - width) / 2], [y = (1200 - height) / 2], and [z = 10]. *)
Theorem buildDefaultLayout_fallback :
  exists h w' : number,
    buildDefaultLayout None None =
      Returns {|
        dimension := Some (val {| height := Some (val h);
                                  width := Some (val w') |});
        position := Some (val {|
          x := Some (val ((int 1500 - w') / int 2)%js);
          y := Some (val ((int 1200 - h) / int 2)%js);
          z := Some (val (int 10));
        |});
      |} /\
    h = int 1168 /\ w' = int 1468 /\
    num_ge h (int 784) = true /\ num_ge (int 1200) h = true /\
    num_ge w' (int 980) = true /\ num_ge (int 1500) w' = true.
Proof.
  exists (int 1168), (int 1468). repeat split; compute_done.
Qed.

(** C1. The viewport that is passed only decides whether [window] is
    looked at, its numbers are never used: in a window of 1000 x 1600 a
    viewport of 900 x 1000 gives the layout of the window (968 x 1468 at
    [x = 66], [y = 16]) and not 868 x 968 at (16, 16); where [window] is not
    declared the same call throws. *)
Theorem buildDefaultLayout_ignores_viewport :
  buildDefaultLayout (Some window_1000_by_1600) (Some viewport_900_by_1000) =
    Returns {|
      dimension := Some (val {| height := Some (val (int 968));
                                width := Some (val (int 1468)) |});
      position := Some (val {| x := Some (val (int 66));
                               y := Some (val (int 16));
                               z := Some (val (int 10)) |});
    |} /\
  buildDefaultLayout (Some window_1000_by_1600) (Some viewport_900_by_1000) =
    buildDefaultLayout (Some window_1000_by_1600) None /\
  (Math_max (val (Math_min (val (int 900)) (val (int 1200)))) (val (int 784))
     - int 32)%js = int 868 /\
  buildDefaultLayout None (Some viewport_900_by_1000) = Throws ReferenceError.
Proof. repeat split; compute_done. Qed.

(** ** The validation pass *)

(** C4. For every entry the validation pass returns, and the layout it
    leaves has under each of [dimension.height], [dimension.width],
    [position.x] and [position.y] the value
    [Math.max(candidate || 0, minimum)], the minimum being 240, 300, 0 and
    0: so the value is at least that minimum, and it is the minimum when
    the candidate is missing or falsy. *)
Theorem validateLayout_floor (app : ref) (w : world)
  (o : ApplicationManagerApplication) :
  heap w !! app = Some o ->
  exists layoutNew w',
    validateLayout app w = Returns (app, w') /\
    heap w' = <[app := with_layout o (val layoutNew)]> (heap w) /\
    localStorage w' = localStorage w /\
    forall key k, (key, k) ∈ floor_keys ->
      dig (val minimumLayout) key = val (int k) /\
      dig (val layoutNew) key =
        val (Math_max (or_else (dig (read (layout o)) key) (val (int 0)))
                      (dig (val minimumLayout) key)) /\
      ge (dig (val layoutNew) key) (val (int k)) = true /\
      (truthy (dig (read (layout o)) key) = false ->
       dig (val layoutNew) key = val (int k)).
Proof.
  intros Ho. exists (validated (read (layout o))). eexists.
  split; [by apply validateLayout_run|].
  do 2 (split; [reflexivity|]).
  intros key k Hk. rewrite (dig_validated _ _ _ Hk).
  split; [by apply dig_minimumLayout|].
  split; [reflexivity|]. split.
  - unfold ge. cbn [ToNumber]. by apply floored_ge.
  - intros Hfalsy. f_equal. by apply floored_falsy.
Qed.

Lemma validateLayout_floor_witness :
  exists layoutNew w',
    validateLayout 0 bare_world = Returns (0%nat, w') /\
    heap w' = <[0%nat := with_layout bare_entry (val layoutNew)]> (heap bare_world) /\
    localStorage w' = localStorage bare_world /\
    forall key k, (key, k) ∈ floor_keys ->
      dig (val minimumLayout) key = val (int k) /\
      dig (val layoutNew) key =
        val (Math_max
               (or_else (dig (read (layout bare_entry)) key) (val (int 0)))
               (dig (val minimumLayout) key)) /\
      ge (dig (val layoutNew) key) (val (int k)) = true /\
      (truthy (dig (read (layout bare_entry)) key) = false ->
       dig (val layoutNew) key = val (int k)).
Proof. apply (validateLayout_floor 0 bare_world bare_entry). reflexivity. Defined.

(** C7. The validation pass run on an entry a second time returns again
    and leaves the world, and so the entry's layout, as the first run left
    it. *)
Theorem validateLayout_idempotent (app : ref) (w : world)
  (o : ApplicationManagerApplication) :
  heap w !! app = Some o ->
  exists layoutNew w1,
    validateLayout app w = Returns (app, w1) /\
    heap w1 !! app = Some (with_layout o (val layoutNew)) /\
    validateLayout app w1 = Returns (app, w1).
Proof.
  intros Ho.
  assert (app < length (heap w))%nat as Hlt by (by eapply lookup_lt_Some).
  exists (validated (read (layout o))). eexists.
  split; [by apply validateLayout_run|].
  split; [cbn [heap]; by apply list_lookup_insert_eq|].
  erewrite validateLayout_run by (cbn [heap]; by apply list_lookup_insert_eq).
  cbn [heap localStorage layout with_layout read].
  by rewrite validated_idem, list_insert_insert_eq.
Qed.

Lemma validateLayout_idempotent_witness :
  exists layoutNew w1,
    validateLayout 0 {| heap := [entry_with_z]; localStorage := ∅ |} =
      Returns (0%nat, w1) /\
    heap w1 !! 0%nat = Some (with_layout entry_with_z (val layoutNew)) /\
    validateLayout 0 w1 = Returns (0%nat, w1).
Proof.
  apply (validateLayout_idempotent 0
           {| heap := [entry_with_z]; localStorage := ∅ |} entry_with_z).
  reflexivity.
Defined.

(** C8, as the specification words it, fails: the pass does not leave
    [position.z] as it was supplied. An entry that comes with [z = 10]
    leaves with [z = null]. *)
Lemma validateLayout_resets_z :
  exists w' o',
    validateLayout 0 {| heap := [entry_with_z]; localStorage := ∅ |} =
      Returns (0%nat, w') /\
    heap w' !! 0%nat = Some o' /\
    dig (read (layout entry_with_z)) "position.z" = val (int 10) /\
    dig (read (layout o')) "position.z" = null /\
    dig (read (layout o')) "position.z" <>
      dig (read (layout entry_with_z)) "position.z".
Proof.
  do 2 eexists. split; [by apply (validateLayout_run 0 _ entry_with_z)|].
  split; [reflexivity|]. repeat split; compute_done.
Qed.

(** C8, amended. The loop writes [dimension.height], [dimension.width],
    [position.x] and [position.y] only, into a fresh layout whose
    [position.z] is [null]; the entry's layout is replaced by it. So after
    the pass [position.z] is there and is [null], whatever the caller
    supplied, a number or nothing, and the other keys of the entry are
    untouched. *)
Theorem validateLayout_z_null (app : ref) (w : world)
  (o : ApplicationManagerApplication) :
  heap w !! app = Some o ->
  exists w' layoutNew p,
    validateLayout app w = Returns (app, w') /\
    heap w' !! app = Some (with_layout o (val layoutNew)) /\
    position layoutNew = Some (val p) /\
    z p = Some null.
Proof.
  intros Ho. eexists _, (validated (read (layout o))), _.
  split; [by apply validateLayout_run|].
  split; [|by split].
  cbn [heap]. apply list_lookup_insert_eq. by eapply lookup_lt_Some.
Qed.

Lemma validateLayout_z_null_witness :
  exists w' layoutNew p,
    validateLayout 0 {| heap := [entry_with_z]; localStorage := ∅ |} =
      Returns (0%nat, w') /\
    heap w' !! 0%nat = Some (with_layout entry_with_z (val layoutNew)) /\
    position layoutNew = Some (val p) /\
    z p = Some null.
Proof.
  apply (validateLayout_z_null 0 {| heap := [entry_with_z]; localStorage := ∅ |}
           entry_with_z).
  reflexivity.
Defined.

(** ** The reconciler *)

(** C2. Whatever is merged, when the merged height is greater than the
    height of the current default layout, the layout [updateLayout] returns
    has the default height and the default [position.y]; and the same for
    the width and [position.x]. *)
Theorem updateLayout_clamp_coupling (window : option Window)
  (layout' layoutPrev : js LayoutType) :
  exists defaultLayout r,
    buildDefaultLayout window None = Returns defaultLayout /\
    updateLayout window layout' layoutPrev = Returns r /\
    (gt (read (height (merged_dimension layout' layoutPrev)))
        (dig (val defaultLayout) "dimension.height") = true ->
     dig (val r) "dimension.height" = dig (val defaultLayout) "dimension.height" /\
     dig (val r) "position.y" = dig (val defaultLayout) "position.y") /\
    (gt (read (width (merged_dimension layout' layoutPrev)))
        (dig (val defaultLayout) "dimension.width") = true ->
     dig (val r) "dimension.width" = dig (val defaultLayout) "dimension.width" /\
     dig (val r) "position.x" = dig (val defaultLayout) "position.x").
Proof.
  destruct (buildDefaultLayout_no_argument window) as (dd & pd & Hd).
  eexists. destruct (negb (truthy layout') && negb (truthy layoutPrev))%bool
    eqn:Hsome.
  - eexists. split; [exact Hd|]. unfold updateLayout. rewrite Hsome.
    split; [exact Hd|]. by split.
  - destruct (updateLayout_run window layout' layoutPrev _ Hsome Hd)
      as (r & Hr & Hkeys).
    exists r. split; [exact Hd|]. split; [exact Hr|].
    pose proof (dig_merged layout' layoutPrev) as Hmerged.
    destruct (clamped_keys {| dimension := Some (val dd);
                              position := Some (val pd) |} layout' layoutPrev)
      as (Hh & Hy & Hw & Hx & _).
    cbv zeta in Hh, Hy, Hw, Hx.
    assert (read (height (merged_dimension layout' layoutPrev)) =
            overlaid (dig layoutPrev "dimension.height")
                     (dig layout' "dimension.height")) as Eh
      by (apply (Hmerged "dimension.height"); set_solver).
    assert (read (width (merged_dimension layout' layoutPrev)) =
            overlaid (dig layoutPrev "dimension.width")
                     (dig layout' "dimension.width")) as Ew
      by (apply (Hmerged "dimension.width"); set_solver).
    rewrite Eh, Ew.
    split; intros Hover; rewrite !Hkeys by set_solver.
    + by rewrite Hh, Hy, Hover.
    + by rewrite Hw, Hx, Hover.
Qed.

Lemma updateLayout_clamp_coupling_witness :
  exists defaultLayout r,
    buildDefaultLayout (Some window_800_by_1600) None = Returns defaultLayout /\
    updateLayout (Some window_800_by_1600)
      (val layout_move_x) (val layout_stored) = Returns r /\
    gt (read (height (merged_dimension (val layout_move_x) (val layout_stored))))
       (dig (val defaultLayout) "dimension.height") = true /\
    dig (val r) "dimension.height" = dig (val defaultLayout) "dimension.height" /\
    dig (val r) "position.y" = dig (val defaultLayout) "position.y".
Proof.
  destruct (updateLayout_clamp_coupling (Some window_800_by_1600)
              (val layout_move_x) (val layout_stored))
    as (d & r & Hd & Hr & Hheight & _).
  exists d, r. split; [exact Hd|]. split; [exact Hr|].
  assert (gt (read (height (merged_dimension (val layout_move_x)
                                             (val layout_stored))))
            (dig (val d) "dimension.height") = true) as Hover.
  { injection Hd as <-. vm_compute. reflexivity. }
  split; [exact Hover|]. exact (Hheight Hover).
Defined.

(** C6, as the specification words it, fails: a field that the new layout
    leaves out does not always keep its previous value. In a window 800
    high, an entry stored at [y = 60] with height 1168 and updated with
    [position.x] alone comes out at [y = 16], the default, because the
    merged height is over the default height of 768. *)
Lemma updateLayout_clamp_overrides_merge :
  exists r,
    updateLayout (Some window_800_by_1600)
      (val layout_move_x) (val layout_stored) = Returns r /\
    dig (val layout_move_x) "position.y" = undefined /\
    dig (val layout_stored) "position.y" = val (int 60) /\
    dig (val r) "position.y" = val (int 16) /\
    dig (val r) "position.y" <> dig (val layout_stored) "position.y".
Proof.
  destruct (updateLayout_returns (Some window_800_by_1600)
              (val layout_move_x) (val layout_stored)) as [r Hr].
  exists r. split; [exact Hr|].
  revert Hr. vm_compute. intros [= <-].
  repeat split; compute_done.
Qed.

(** C6, amended. With both layouts there, every field of the layout that
    [updateLayout] returns is the merged one (the new value where it is
    defined, else the previous value where that is defined, else nothing,
    for [position] and [dimension] alike) unless the clamp to the default
    size overwrites it: [dimension.height] and [position.y] when the merged
    height is over the default height, [dimension.width] and [position.x]
    when the merged width is over the default width. [position.z] is always
    the merged one. *)
Theorem updateLayout_merge (window : option Window)
  (layout' layoutPrev : LayoutType) :
  exists defaultLayout r,
    buildDefaultLayout window None = Returns defaultLayout /\
    updateLayout window (val layout') (val layoutPrev) = Returns r /\
    (forall key, key ∈ layout_keys ->
       clamped defaultLayout (val layout') (val layoutPrev) key = false ->
       dig (val r) key =
         overlaid (dig (val layoutPrev) key) (dig (val layout') key)) /\
    dig (val r) "position.z" =
      overlaid (dig (val layoutPrev) "position.z") (dig (val layout') "position.z").
Proof.
  destruct (buildDefaultLayout_no_argument window) as (dd & pd & Hd).
  destruct (updateLayout_run window (val layout') (val layoutPrev) _ eq_refl Hd)
    as (r & Hr & Hkeys).
  eexists _, r. split; [exact Hd|]. split; [exact Hr|]. split.
  - intros key Hkey Hfree. by rewrite Hkeys, Hfree.
  - by rewrite Hkeys by set_solver.
Qed.

Lemma updateLayout_merge_witness :
  exists defaultLayout r,
    buildDefaultLayout (Some window_800_by_1600) None = Returns defaultLayout /\
    updateLayout (Some window_800_by_1600)
      (val layout_move_x) (val layout_stored) = Returns r /\
    clamped defaultLayout (val layout_move_x) (val layout_stored)
      "dimension.width" = false /\
    dig (val r) "position.x" = val (int 999) /\
    dig (val r) "dimension.width" = val (int 1468).
Proof.
  destruct (updateLayout_merge (Some window_800_by_1600)
              layout_move_x layout_stored)
    as (d & r & Hd & Hr & Hkeys & _).
  exists d, r. split; [exact Hd|]. split; [exact Hr|].
  assert (clamped d (val layout_move_x) (val layout_stored)
            "dimension.width" = false) as Hfree.
  { injection Hd as <-. vm_compute. reflexivity. }
  split; [exact Hfree|]. split.
  - rewrite (Hkeys "position.x"); [reflexivity| |exact Hfree].
    unfold layout_keys. set_solver.
  - rewrite (Hkeys "dimension.width"); [reflexivity| |exact Hfree].
    unfold layout_keys. set_solver.
Defined.

(** ** The life cycle *)

Section registry_facts.

Implicit Types (w : world) (o e : ApplicationManagerApplication)
  (apps : list ApplicationManagerApplication)
  (X : ApplicationExpansionUUIDEnum).

Lemma registry_same_storage w w' :
  localStorage w = localStorage w' -> registry w = registry w'.
Proof. unfold registry. by intros ->. Qed.

(** No entry for [X]: nothing is found and the new entry is pushed. *)
Lemma found_none apps X e :
  Forall (fun a => uuid a <> X) apps ->
  found apps X = undefined /\ placed apps X e = apps ++ [e].
Proof.
  intros Hall. unfold found, placed.
  destruct (findIndex_spec (fun a => bool_decide (X = uuid a)) apps)
    as [[-> _]|(k & a & _ & Hk & Ha)]; [done|].
  apply bool_decide_eq_true_1 in Ha.
  rewrite Forall_lookup in Hall. by destruct (Hall k a Hk).
Qed.

(** The uuids after an entry for [X] has been placed. *)
Lemma placed_uuids apps X e :
  uuid e = X ->
  (X ∈ (uuid <$> apps) /\ uuid <$> placed apps X e = uuid <$> apps) \/
  ((X ∉ (uuid <$> apps)) /\
   uuid <$> placed apps X e = (uuid <$> apps) ++ [X]).
Proof.
  intros He. unfold placed.
  destruct (findIndex_spec (fun a => bool_decide (X = uuid a)) apps)
    as [[-> Hall]|(k & a & -> & Hk & Ha)].
  - right. change (-1 >=? 0)%Z with false. cbv iota.
    split; [|by rewrite fmap_app, <- He].
    rewrite list_elem_of_fmap. intros (a & -> & Ha).
    rewrite Forall_forall in Hall. specialize (Hall a Ha).
    by apply bool_decide_eq_false_1 in Hall.
  - left. apply bool_decide_eq_true_1 in Ha.
    assert ((uuid <$> apps) !! k = Some X) as HX
      by (by rewrite list_lookup_fmap, Hk, Ha).
    split; [by eapply list_elem_of_lookup_2|].
    replace (Z.of_nat k >=? 0)%Z with true
      by (symmetry; rewrite Z.geb_leb; apply Z.leb_le; lia).
    rewrite Nat2Z.id, list_fmap_insert, He. by apply list_insert_id.
Qed.

Lemma NoDup_fmap_filter {A B} (f : A -> B) (p : A -> bool) (l : list A) :
  NoDup (f <$> l) -> NoDup (f <$> List.filter p l).
Proof.
  induction l as [|a l IH]; [done|]. cbn. rewrite NoDup_cons.
  intros [Ha Hl]. destruct (p a); [|by apply IH].
  cbn. rewrite NoDup_cons. split; [|by apply IH].
  rewrite list_elem_of_fmap in *. intros (b & Hb & Hin).
  apply Ha. exists b. split; [done|].
  apply list_elem_of_In, filter_In in Hin as [Hin _]. by apply list_elem_of_In.
Qed.

(** With one entry per uuid, a filter on a uuid keeps at most one. *)
Lemma filter_uuid_length status' X apps :
  NoDup (uuid <$> apps) ->
  (length (List.filter (matches status' (val X)) apps) <= 1)%nat.
Proof.
  assert (forall a, matches status' (val X) a = true -> uuid a = X) as HX.
  { intros a [_ Ha]%andb_prop. cbn in Ha.
    apply bool_decide_eq_true_1 in Ha. by injection Ha. }
  induction apps as [|a apps IH]; [cbn; lia|].
  cbn. rewrite NoDup_cons. intros [Ha Hl].
  destruct (matches status' (val X) a) eqn:Hm; [|by apply IH].
  apply HX in Hm. cbn.
  destruct (List.filter (matches status' (val X)) apps) as [|b rest] eqn:Hf;
    [cbn; lia|exfalso].
  assert (In b (List.filter (matches status' (val X)) apps)) as Hb
    by (rewrite Hf; by left).
  apply filter_In in Hb as [Hb Hmb]. apply HX in Hmb.
  apply Ha, list_elem_of_fmap. exists b. split; [congruence|].
  by apply list_elem_of_In.
Qed.

Lemma filter_uuid_none X apps :
  List.filter (matches undefined (val X))
    (List.filter (fun a => negb (bool_decide (X = uuid a))) apps) = [].
Proof.
  induction apps as [|a apps IH]; [done|]. cbn.
  destruct (bool_decide (X = uuid a)) eqn:Ha; cbn; [done|].
  unfold matches at 1. cbn. unfold strict_eq.
  apply bool_decide_eq_false_1 in Ha.
  rewrite bool_decide_eq_false_2 by congruence. done.
Qed.

Lemma filter_uuid_all X apps :
  Forall (fun a => uuid a <> X) apps ->
  List.filter (fun a => negb (bool_decide (X = uuid a))) apps = apps.
Proof.
  induction 1 as [|a apps Ha _ IH]; [done|]. cbn.
  rewrite bool_decide_eq_false_2 by congruence. cbn. by f_equal.
Qed.

Lemma filter_uuid_Forall X apps :
  Forall (fun a => uuid a <> X)
    (List.filter (fun a => negb (bool_decide (X = uuid a))) apps).
Proof.
  apply Forall_forall. intros a [_ Ha]%list_elem_of_In%filter_In.
  apply negb_true_iff, bool_decide_eq_false_1 in Ha. congruence.
Qed.

End registry_facts.

(** C10. A call that does not close writes into the caller's object: when
    it returns, the object's [layout] is the layout [updateLayout] merged
    from it and the stored entry's, before validation; the entry that is
    validated, stored and returned is another object. *)
Theorem updateApplication_overwrites_patch_layout (window : option Window)
  (application : ref) (w : world) (o : ApplicationManagerApplication) :
  heap w !! application = Some o ->
  ((read (state o))?.status === val CLOSED)%js = false ->
  exists merged appUpdated w' e,
    updateLayout window (read (layout o))
      ((found (registry w) (uuid o))?.layout)%js = Returns merged /\
    updateApplication window application w = Returns (val appUpdated, w') /\
    heap w' !! application = Some (with_layout o (val merged)) /\
    appUpdated <> application /\
    heap w' !! appUpdated = Some e /\
    layout e = Some (val (validated (val merged))).
Proof.
  intros Ho Hopen.
  destruct (updateApplication_open window application w o Ho Hopen)
    as (merged & Hm & Hrun).
  assert (application < length (heap w))%nat as Hlt
    by (by eapply lookup_lt_Some).
  exists merged. do 3 eexists. split; [exact Hm|]. split; [exact Hrun|].
  cbn [heap]. split; [|split; [lia|split]].
  - rewrite lookup_app_l by (by rewrite length_insert).
    by apply list_lookup_insert_eq.
  - rewrite lookup_app_r; rewrite length_insert; [|done].
    by rewrite Nat.sub_diag.
  - reflexivity.
Qed.

Lemma updateApplication_overwrites_patch_layout_witness :
  exists merged appUpdated w' e,
    updateLayout None (read (layout patch_open))
      ((found (registry world_open) (uuid patch_open))?.layout)%js =
      Returns merged /\
    updateApplication None 0 world_open = Returns (val appUpdated, w') /\
    heap w' !! 0%nat = Some (with_layout patch_open (val merged)) /\
    appUpdated <> 0%nat /\
    heap w' !! appUpdated = Some e /\
    layout e = Some (val (validated (val merged))).
Proof.
  apply (updateApplication_overwrites_patch_layout None 0 world_open patch_open);
    reflexivity.
Defined.

(** C5. A call whose state is [CLOSED] returns [undefined], allocates
    nothing, and leaves in the registry the entries whose uuid is not the
    one it names: filtering on that uuid then gives nothing, and where no
    entry had it the entries are as before. A later call for the same uuid
    that does not close finds nothing stored: the entry it pushes is made
    from its own argument alone, merged with no previous layout. *)
Theorem updateApplication_close_removes (window : option Window)
  (application : ref) (w : world) (o : ApplicationManagerApplication) :
  heap w !! application = Some o ->
  ((read (state o))?.status === val CLOSED)%js = true ->
  exists w',
    updateApplication window application w = Returns (undefined, w') /\
    heap w' = heap w /\
    registry w' =
      List.filter (fun a => negb (bool_decide (uuid o = uuid a))) (registry w) /\
    getApplications undefined (val (uuid o)) w' = Returns ([], w') /\
    (Forall (fun a => uuid a <> uuid o) (registry w) ->
     registry w' = registry w) /\
    forall window' application' w1 o',
      localStorage w1 = localStorage w' ->
      heap w1 !! application' = Some o' ->
      uuid o' = uuid o ->
      ((read (state o'))?.status === val CLOSED)%js = false ->
      exists merged appUpdated w2,
        updateLayout window' (read (layout o')) undefined = Returns merged /\
        updateApplication window' application' w1 =
          Returns (val appUpdated, w2) /\
        heap w2 !! appUpdated =
          Some (with_layout o' (val (validated (val merged)))) /\
        registry w2 =
          registry w' ++ [with_layout o' (val (validated (val merged)))].
Proof.
  intros Ho Hclosed. eexists.
  split; [by apply updateApplication_close|].
  split; [reflexivity|]. rewrite registry_set.
  split; [reflexivity|]. split; [|split].
  - rewrite getApplications_run, registry_set. cbn [truthy js_truthy orb].
    by rewrite filter_uuid_none.
  - apply filter_uuid_all.
  - intros window' application' w1 o' Hstorage Ho' Huuid Hopen.
    destruct (updateApplication_open window' application' w1 o' Ho' Hopen)
      as (merged & Hm & Hrun).
    cbv zeta in Hrun. rewrite (registry_same_storage _ _ Hstorage) in Hm, Hrun.
    rewrite registry_set, Huuid in Hm, Hrun.
    match type of Hrun with context [placed ?apps ?X ?e] =>
      destruct (found_none apps X e (filter_uuid_Forall X _)) as [Hnone Hpush]
    end.
    rewrite Hpush, Hnone in Hrun. rewrite Hnone in Hm.
    exists merged. do 2 eexists. split; [exact Hm|]. split; [exact Hrun|].
    assert (application' < length (heap w1))%nat as Hlt
      by (by eapply lookup_lt_Some).
    split.
    + cbn [heap]. rewrite lookup_app_r; rewrite length_insert; [|done].
      rewrite Nat.sub_diag. cbn. f_equal.
      unfold spread_application, with_layout. cbn. by destruct o' as [[] ? [] ?].
    + rewrite registry_set. do 2 f_equal.
      unfold spread_application, with_layout. cbn. by destruct o' as [[] ? [] ?].
Qed.

Lemma updateApplication_close_removes_witness :
  exists w',
    updateApplication None 0 world_close = Returns (undefined, w') /\
    registry world_close <> [] /\
    registry w' = [] /\
    getApplications undefined (val (Member 0)) w' = Returns ([], w') /\
    exists merged appUpdated w2,
      updateLayout None (read (layout patch_open)) undefined = Returns merged /\
      updateApplication None 0
        {| heap := [patch_open]; localStorage := localStorage w' |} =
        Returns (val appUpdated, w2) /\
      registry w2 = [with_layout patch_open (val (validated (val merged)))].
Proof.
  destruct (updateApplication_close_removes None 0 world_close patch_close
              eq_refl eq_refl) as (w' & Hrun & _ & Hreg & Hget & _ & Hagain).
  exists w'. split; [exact Hrun|]. split; [discriminate|].
  assert (registry w' = []) as Hempty by (rewrite Hreg; reflexivity).
  split; [exact Hempty|]. split; [exact Hget|].
  destruct (Hagain None 0%nat
              {| heap := [patch_open]; localStorage := localStorage w' |}
              patch_open eq_refl eq_refl eq_refl eq_refl)
    as (merged & appUpdated & w2 & Hm & Hrun2 & _ & Hreg2).
  exists merged, appUpdated, w2. split; [exact Hm|]. split; [exact Hrun2|].
  rewrite Hreg2, Hempty. reflexivity.
Defined.

(** One call keeps the entries' uuids apart. *)
Lemma updateApplication_unique (window : option Window) (application : ref)
  (w : world) (o : ApplicationManagerApplication) :
  heap w !! application = Some o ->
  NoDup (uuid <$> registry w) ->
  exists result w',
    updateApplication window application w = Returns (result, w') /\
    NoDup (uuid <$> registry w').
Proof.
  intros Ho Hunique.
  destruct (((read (state o))?.status === val CLOSED)%js) eqn:Hs.
  - do 2 eexists. split; [by apply updateApplication_close|].
    rewrite registry_set. by apply NoDup_fmap_filter.
  - destruct (updateApplication_open window application w o Ho Hs)
      as (merged & _ & Hrun).
    do 2 eexists. split; [exact Hrun|]. rewrite registry_set.
    match goal with |- context [placed ?apps ?X ?e] =>
      destruct (placed_uuids apps X e eq_refl) as [[_ ->]|[Hnew ->]]
    end; [done|].
    apply NoDup_app. split; [done|]. split; [|apply NoDup_singleton].
    intros X HX ->%list_elem_of_singleton. by apply Hnew.
Qed.

(** C3. From a registry with at most one entry per uuid, the empty one for
    instance, every finite sequence of calls of [updateApplication] runs to
    its end and leaves a registry with at most one entry per uuid:
    [getApplications] with a uuid in its filter returns at most one
    entry. *)
Theorem updateApplications_unique
  (calls : list (option Window * ApplicationManagerApplication)) (w : world) :
  NoDup (uuid <$> registry w) ->
  exists w',
    updateApplications calls w = Returns (tt, w') /\
    NoDup (uuid <$> registry w') /\
    forall status' X,
      exists entries,
        getApplications status' (val X) w' = Returns (entries, w') /\
        (length entries <= 1)%nat.
Proof.
  revert w. induction calls as [|[window literal] calls IH]; intros w Hunique.
  - exists w. split; [reflexivity|]. split; [done|].
    intros status' X. eexists. split; [by apply getApplications_run|].
    replace (truthy status' || truthy (val X))%bool with true
      by (by destruct (truthy status')).
    by apply filter_uuid_length.
  - cbn [updateApplications]. unfold mbind at 1, alloc.
    set (w0 := {| heap := heap w ++ [literal];
                  localStorage := localStorage w |}).
    destruct (updateApplication_unique window (length (heap w)) w0 literal)
      as (result & w1 & Hrun & Hunique1).
    { subst w0. cbn [heap]. by rewrite lookup_app_r, Nat.sub_diag. }
    { by rewrite <- (registry_same_storage w w0). }
    unfold mbind at 1. rewrite Hrun. by apply IH.
Qed.

Lemma updateApplications_unique_witness :
  exists w',
    updateApplications
      [(None, patch_open); (Some window_800_by_1600, patch_open);
       (None, patch_close); (None, patch_open)]
      {| heap := []; localStorage := ∅ |} = Returns (tt, w') /\
    NoDup (uuid <$> registry w') /\
    forall status' X,
      exists entries,
        getApplications status' (val X) w' = Returns (entries, w') /\
        (length entries <= 1)%nat.
Proof.
  apply (updateApplications_unique
           [(None, patch_open); (Some window_800_by_1600, patch_open);
            (None, patch_close); (None, patch_open)]
           {| heap := []; localStorage := ∅ |}).
  vm_compute. constructor.
Defined.

(** * Further properties *)

Section arithmetic.

Implicit Types (p q lo hi : Qc) (t : js number).

Lemma num_lt_Finite p q : num_lt (Finite p) (Finite q) = bool_decide (p < q)%Qc.
Proof.
  cbn. destruct (p ?= q)%Qc eqn:Hc; symmetry.
  - apply bool_decide_eq_false_2. apply Qceq_alt in Hc as ->. apply Qcle_not_lt, Qcle_refl.
  - apply bool_decide_eq_true_2. by apply Qclt_alt.
  - apply bool_decide_eq_false_2. apply Qcgt_alt in Hc.
    by apply Qcle_not_lt, Qclt_le_weak.
Qed.

Lemma num_ge_Finite p q : num_ge (Finite p) (Finite q) = bool_decide (q <= p)%Qc.
Proof.
  unfold num_ge. rewrite num_lt_Finite.
  destruct (decide (p < q)%Qc) as [Hlt|Hge].
  - rewrite bool_decide_eq_true_2 by done. symmetry.
    apply bool_decide_eq_false_2. by apply Qclt_not_le.
  - rewrite bool_decide_eq_false_2 by done. symmetry.
    apply bool_decide_eq_true_2. by apply Qcnot_lt_le.
Qed.

Lemma Math_min_numbers t (n : number) :
  ToNumber t <> NaN -> n <> NaN ->
  Math_min t (val n) = if num_lt n (ToNumber t) then n else ToNumber t.
Proof. unfold Math_min. cbn [ToNumber]. by destruct (ToNumber t), n. Qed.

(** [Math.max(Math.min(t, hi), lo)] is a finite number between [lo] and
    [hi], and [t] itself when [t] is. *)
Lemma clamp_range t lo hi :
  (lo <= hi)%Qc -> ToNumber t <> NaN ->
  exists q,
    Math_max (val (Math_min t (val (Finite hi)))) (val (Finite lo)) = Finite q /\
    (lo <= q)%Qc /\ (q <= hi)%Qc /\
    (forall p, ToNumber t = Finite p -> (lo <= p)%Qc -> (p <= hi)%Qc -> q = p).
Proof.
  intros Hlohi Ht. rewrite Math_min_numbers by done.
  assert (Math_max (val (Finite hi)) (val (Finite lo)) = Finite hi) as Hhi.
  { rewrite Math_max_numbers, num_lt_Finite by done.
    by rewrite bool_decide_eq_false_2 by (by apply Qcle_not_lt). }
  destruct (ToNumber t) as [| |p|] eqn:Et; [done|..].
  - exists lo. split; [done|]. repeat split; [apply Qcle_refl|done|].
    intros p [=].
  - rewrite num_lt_Finite.
    destruct (decide (hi < p)%Qc) as [Hhp|Hhp].
    + rewrite (bool_decide_eq_true_2 _ Hhp), Hhi.
      exists hi. repeat split; [done|apply Qcle_refl|].
      intros p' [= <-] _ Hp. by destruct (Qcle_not_lt _ _ Hp).
    + rewrite (bool_decide_eq_false_2 _ Hhp).
      rewrite Math_max_numbers, num_lt_Finite by done.
      apply Qcnot_lt_le in Hhp.
      destruct (decide (p < lo)%Qc) as [Hpl|Hpl].
      * rewrite (bool_decide_eq_true_2 _ Hpl).
        exists lo. repeat split; [apply Qcle_refl|done|].
        intros p' [= <-] Hp _. by destruct (Qcle_not_lt _ _ Hp).
      * rewrite (bool_decide_eq_false_2 _ Hpl). apply Qcnot_lt_le in Hpl.
        exists p. repeat split; [done..|]. by intros p' [= <-].
  - change (num_lt (Finite hi) Infinity) with true. cbv iota. rewrite Hhi.
    exists hi. repeat split; [done|apply Qcle_refl|]. intros p [=].
Qed.

Lemma padding : (APPLICATION_PADDING * int 2)%js = int 32.
Proof. compute_done. Qed.

Lemma centred q : ((Finite q - (Finite q - int 32)) / int 2)%js = int 16.
Proof.
  assert (q - (q - Q2Qc (inject_Z 32)) = Q2Qc (inject_Z 32))%Qc as Hq.
  { apply Qc_is_canon. unfold Qcminus, Qcplus, Qcopp. cbn [this Q2Qc].
    rewrite !Qred_correct. ring. }
  cbn. rewrite Hq. compute_done.
Qed.

End arithmetic.

(** ** The geometry in a host *)

Section geometry.

Implicit Types (win : Window) (window : option Window)
  (viewport : option DimensionType).

(** The sizes [buildDefaultLayout] ends with, from the totals it settled
    on. *)
Lemma buildDefaultLayout_in_window win viewport :
  buildDefaultLayout (Some win) viewport =
    let h := (Math_max (val (Math_min (val (innerHeight win)) (val (int 1200))))
                       (val (int 784)) - int 32)%js in
    let w := (Math_max (val (Math_min (val (innerWidth win)) (val (int 1500))))
                       (val (int 980)) - int 32)%js in
    Returns {|
      dimension := Some (val {| height := Some (val h); width := Some (val w) |});
      position := Some (val {|
        x := Some (val ((innerWidth win - w) / int 2)%js);
        y := Some (val ((innerHeight win - h) / int 2)%js);
        z := Some (val (int 10));
      |});
    |}.
Proof.
  rewrite buildDefaultLayout_window. unfold buildDefaultLayout.
  cbn [default window_defined read height width truthy js_truthy orb
       window_chain bind ToNumber].
  by rewrite padding.
Qed.

(** Where [window] is not declared, a truthy [height] or [width] makes
    the call look at [window] all the same. *)
Lemma buildDefaultLayout_no_window (v : DimensionType) :
  buildDefaultLayout None (Some v) =
    if (truthy (read (height v)) || truthy (read (width v)))%bool
    then Throws ReferenceError
    else buildDefaultLayout None None.
Proof.
  destruct (truthy (read (height v))) eqn:Hh,
           (truthy (read (width v))) eqn:Hw;
    unfold buildDefaultLayout at 1;
    cbv beta zeta delta [default from_option id window_defined]; cbv iota;
    rewrite ?orb_false_r, Hh, ?Hw; reflexivity.
Qed.

(** X1. In a host where [window] is declared the argument of
    [buildDefaultLayout] makes no difference. Where it is not, a call whose
    argument has a truthy [height] or [width] throws, and any other call
    returns what the call without argument returns. *)
Theorem buildDefaultLayout_argument :
  (forall win viewport,
     buildDefaultLayout (Some win) viewport =
       buildDefaultLayout (Some win) None) /\
  (forall v : DimensionType,
     buildDefaultLayout None (Some v) =
       if (truthy (read (height v)) || truthy (read (width v)))%bool
       then Throws ReferenceError
       else buildDefaultLayout None None).
Proof.
  split.
  - intros win viewport. unfold buildDefaultLayout. cbn [window_defined].
    by rewrite !orb_true_r.
  - intros v. destruct (truthy (read (height v)) || truthy (read (width v)))%bool
      eqn:Hv; rewrite buildDefaultLayout_no_window, Hv; reflexivity.
Qed.

Lemma shrunk_range (q lo hi : Qc) :
  (lo + Q2Qc (inject_Z 32) <= q)%Qc -> (q <= hi + Q2Qc (inject_Z 32))%Qc ->
  num_ge (Finite q - int 32)%js (Finite lo) = true /\
  num_ge (Finite hi) (Finite q - int 32)%js = true.
Proof.
  intros Hlo Hhi. cbn [num_sub int]. rewrite !num_ge_Finite.
  split; apply bool_decide_eq_true_2.
  - apply (Qcplus_le_mono_r _ _ (Q2Qc (inject_Z 32))).
    replace (q - Q2Qc (inject_Z 32) + Q2Qc (inject_Z 32))%Qc with q by ring.
    done.
  - apply (Qcplus_le_mono_r _ _ (Q2Qc (inject_Z 32))).
    replace (q - Q2Qc (inject_Z 32) + Q2Qc (inject_Z 32))%Qc with q by ring.
    done.
Qed.

(** What the default layout is made of when the sizes of the window are
    numbers: the totals, clamped, less the padding on both sides. *)
Lemma buildDefaultLayout_sizes window viewport (d : LayoutType) :
  window_sized window ->
  buildDefaultLayout window viewport = Returns d ->
  exists qh qw : Qc,
    dig (val d) "dimension.height" = val (Finite qh - int 32)%js /\
    dig (val d) "dimension.width" = val (Finite qw - int 32)%js /\
    (Q2Qc (inject_Z 784) <= qh)%Qc /\ (qh <= Q2Qc (inject_Z 1200))%Qc /\
    (Q2Qc (inject_Z 980) <= qw)%Qc /\ (qw <= Q2Qc (inject_Z 1500))%Qc /\
    dig (val d) "position.z" = val (int 10).
Proof.
  intros Hsized Hd. destruct window as [win|].
  - destruct Hsized as [Hh Hw].
    rewrite buildDefaultLayout_in_window in Hd. cbv zeta in Hd.
    injection Hd as <-.
    destruct (clamp_range (val (innerHeight win)) (Q2Qc (inject_Z 784))
                (Q2Qc (inject_Z 1200))) as (qh & Eh & Hh1 & Hh2 & _);
      [compute_done|done|].
    destruct (clamp_range (val (innerWidth win)) (Q2Qc (inject_Z 980))
                (Q2Qc (inject_Z 1500))) as (qw & Ew & Hw1 & Hw2 & _);
      [compute_done|done|].
    fold (int 784) (int 1200) in Eh. fold (int 980) (int 1500) in Ew.
    exists qh, qw. rewrite <- Eh, <- Ew. by repeat split.
  - assert (buildDefaultLayout None None = Returns d) as Hnone.
    { destruct viewport as [v|]; [|done].
      rewrite buildDefaultLayout_no_window in Hd.
      by destruct (truthy (read (height v)) || truthy (read (width v)))%bool. }
    injection Hnone as <-.
    exists (Q2Qc (inject_Z 1200)), (Q2Qc (inject_Z 1500)).
    repeat split; compute_done.
Qed.

(** X2. Whenever the sizes of the window are not [NaN], the layout that
    [buildDefaultLayout] returns is between 752 and 1168 high and between
    948 and 1468 wide, and has [z = 10]. *)
Theorem buildDefaultLayout_bounds window viewport (d : LayoutType) :
  window_sized window ->
  buildDefaultLayout window viewport = Returns d ->
  exists h w : number,
    dig (val d) "dimension.height" = val h /\
    dig (val d) "dimension.width" = val w /\
    num_ge h (int 752) = true /\ num_ge (int 1168) h = true /\
    num_ge w (int 948) = true /\ num_ge (int 1468) w = true /\
    dig (val d) "position.z" = val (int 10).
Proof.
  intros Hsized Hd.
  destruct (buildDefaultLayout_sizes window viewport d Hsized Hd)
    as (qh & qw & Eh & Ew & Hh1 & Hh2 & Hw1 & Hw2 & Ez).
  destruct (shrunk_range qh (Q2Qc (inject_Z 752)) (Q2Qc (inject_Z 1168)))
    as [? ?]; [done..|].
  destruct (shrunk_range qw (Q2Qc (inject_Z 948)) (Q2Qc (inject_Z 1468)))
    as [? ?]; [done..|].
  exists (Finite qh - int 32)%js, (Finite qw - int 32)%js. by repeat split.
Qed.

Lemma buildDefaultLayout_bounds_witness :
  exists h w : number,
    dig (val layout_default_800) "dimension.height" = val h /\
    dig (val layout_default_800) "dimension.width" = val w /\
    num_ge h (int 752) = true /\ num_ge (int 1168) h = true /\
    num_ge w (int 948) = true /\ num_ge (int 1468) w = true /\
    dig (val layout_default_800) "position.z" = val (int 10).
Proof.
  apply (buildDefaultLayout_bounds (Some window_800_by_1600) None
           layout_default_800).
  - split; discriminate.
  - compute_done.
Defined.

(** X3. In a window whose height is between 784 and 1200 and whose width
    is between 980 and 1500, whatever the argument, the default layout is
    the window less a margin of 16 on every side. *)
Theorem buildDefaultLayout_margin win viewport (H W : Qc) :
  innerHeight win = Finite H -> innerWidth win = Finite W ->
  (Q2Qc (inject_Z 784) <= H)%Qc -> (H <= Q2Qc (inject_Z 1200))%Qc ->
  (Q2Qc (inject_Z 980) <= W)%Qc -> (W <= Q2Qc (inject_Z 1500))%Qc ->
  buildDefaultLayout (Some win) viewport =
    Returns {|
      dimension := Some (val {| height := Some (val (Finite H - int 32)%js);
                                width := Some (val (Finite W - int 32)%js) |});
      position := Some (val {| x := Some (val (int 16));
                               y := Some (val (int 16));
                               z := Some (val (int 10)) |});
    |}.
Proof.
  intros EH EW HH1 HH2 HW1 HW2.
  rewrite buildDefaultLayout_in_window, EH, EW. cbv zeta.
  destruct (clamp_range (val (Finite H)) (Q2Qc (inject_Z 784))
              (Q2Qc (inject_Z 1200))) as (qh & Eh & _ & _ & Hqh);
    [compute_done|done|].
  destruct (clamp_range (val (Finite W)) (Q2Qc (inject_Z 980))
              (Q2Qc (inject_Z 1500))) as (qw & Ew & _ & _ & Hqw);
    [compute_done|done|].
  fold (int 784) (int 1200) in Eh. fold (int 980) (int 1500) in Ew.
  rewrite Eh, Ew, (Hqh H), (Hqw W), !centred by done. reflexivity.
Qed.

Lemma buildDefaultLayout_margin_witness :
  buildDefaultLayout (Some window_1000_by_1400) None =
    Returns {|
      dimension := Some (val {|
        height := Some (val (Finite (Q2Qc (inject_Z 1000)) - int 32)%js);
        width := Some (val (Finite (Q2Qc (inject_Z 1400)) - int 32)%js) |});
      position := Some (val {| x := Some (val (int 16));
                               y := Some (val (int 16));
                               z := Some (val (int 10)) |});
    |}.
Proof.
  apply (buildDefaultLayout_margin window_1000_by_1400 None
           (Q2Qc (inject_Z 1000)) (Q2Qc (inject_Z 1400)));
    first [reflexivity | compute_done].
Defined.



End geometry.

(** ** Reading the registry *)

Section reading.

Implicit Types (w : world) (e : ApplicationManagerApplication)
  (stored : list (js ApplicationManagerApplication)).




End reading.

(** ** One call of [updateApplication] *)

Section one_call.

Implicit Types (window : option Window) (w : world)
  (o a e : ApplicationManagerApplication)
  (apps : list ApplicationManagerApplication)
  (X : ApplicationExpansionUUIDEnum) (application : ref).

(** Both branches of a call, with what each leaves behind. *)
Lemma updateApplication_after window application w o :
  heap w !! application = Some o ->
  exists r w',
    updateApplication window application w = Returns (r, w') /\
    (forall key, key <> LOCAL_STORAGE_KEY_APPLICATION_MANAGER ->
       localStorage w' !! key = localStorage w !! key) /\
    ((is_closed o = true /\ r = undefined /\ heap w' = heap w /\
      registry w' = List.filter (other_than (uuid o)) (registry w)) \/
     (is_closed o = false /\
      exists merged,
        updateLayout window (read (layout o))
          ((found (registry w) (uuid o))?.layout)%js = Returns merged /\
        let e := with_layout
                   (spread_application (found (registry w) (uuid o))
                      (with_layout o (val merged)))
                   (val (validated (val merged))) in
        r = val (length (heap w)) /\
        heap w' = <[application := with_layout o (val merged)]> (heap w) ++ [e] /\
        registry w' = placed (registry w) (uuid o) e)).
Proof.
  intros Ho. destruct (is_closed o) eqn:Hc.
  - do 2 eexists. split; [by apply updateApplication_close|].
    split; [intros key Hkey; cbn; by rewrite lookup_insert_ne|].
    left. rewrite registry_set. by repeat split.
  - destruct (updateApplication_open window application w o Ho Hc)
      as (merged & Hm & Hrun).
    do 2 eexists. split; [exact Hrun|].
    split; [intros key Hkey; cbn; by rewrite lookup_insert_ne|].
    right. split; [done|]. exists merged. split; [done|].
    rewrite registry_set. by repeat split.
Qed.

(** X6. A call on an object of the caller never throws. It returns
    [undefined] exactly when the object's state is [CLOSED]; it writes to no
    key of the store but the registry's, to no other object of the caller,
    and in the caller's object to the layout alone. *)
Theorem updateApplication_frame window application w o :
  heap w !! application = Some o ->
  exists r w',
    updateApplication window application w = Returns (r, w') /\
    (r = undefined <-> is_closed o = true) /\
    (forall key, key <> LOCAL_STORAGE_KEY_APPLICATION_MANAGER ->
       localStorage w' !! key = localStorage w !! key) /\
    (forall other, other <> application -> (other < length (heap w))%nat ->
       heap w' !! other = heap w !! other) /\
    exists o',
      heap w' !! application = Some o' /\
      uuid o' = uuid o /\ state o' = state o /\
      applicationConfiguration o' = applicationConfiguration o.
Proof.
  intros Ho.
  assert (application < length (heap w))%nat as Hlt
    by (by eapply lookup_lt_Some).
  destruct (updateApplication_after window application w o Ho)
    as (r & w' & Hrun & Hkeys &
        [(Hc & -> & Hheap & _)|(Hc & merged & _ & Hr & Hheap & _)]).
  - exists undefined, w'. split; [done|]. split; [done|]. split; [done|].
    rewrite Hheap. split; [done|]. by exists o.
  - cbv zeta in Hr, Hheap. exists r, w'. split; [done|].
    split; [rewrite Hr, Hc; split; discriminate|]. split; [done|].
    rewrite Hheap. split.
    + intros other Hne Hother.
      rewrite lookup_app_l by (by rewrite length_insert).
      by apply list_lookup_insert_ne.
    + exists (with_layout o (val merged)). split; [|done].
      rewrite lookup_app_l by (by rewrite length_insert).
      by apply list_lookup_insert_eq.
Qed.

Lemma updateApplication_frame_witness :
  exists r w',
    updateApplication None 0 world_open = Returns (r, w') /\
    (r = undefined <-> is_closed patch_open = true) /\
    (forall key, key <> LOCAL_STORAGE_KEY_APPLICATION_MANAGER ->
       localStorage w' !! key = localStorage world_open !! key) /\
    (forall other, other <> 0%nat -> (other < length (heap world_open))%nat ->
       heap w' !! other = heap world_open !! other) /\
    exists o',
      heap w' !! 0%nat = Some o' /\
      uuid o' = uuid patch_open /\ state o' = state patch_open /\
      applicationConfiguration o' = applicationConfiguration patch_open.
Proof. apply (updateApplication_frame None 0 world_open patch_open). reflexivity. Defined.

Lemma filter_filter_same {A} (p : A -> bool) (l : list A) :
  List.filter p (List.filter p l) = List.filter p l.
Proof.
  induction l as [|b l IH]; [done|]. cbn.
  destruct (p b) eqn:Hp; [|done]. cbn. by rewrite Hp, IH.
Qed.





(** With one entry per uuid, the entry for [X] is the one that is found,
    and the new entry takes its place. *)
Lemma found_at apps X k a e :
  NoDup (uuid <$> apps) -> apps !! k = Some a -> uuid a = X ->
  found apps X = val a /\ placed apps X e = <[k := e]> apps.
Proof.
  intros Hunique Hk Ha. unfold found, placed.
  destruct (findIndex_spec (fun b => bool_decide (X = uuid b)) apps)
    as [[_ Hall]|(j & b & -> & Hj & Hb)].
  - rewrite Forall_lookup in Hall. specialize (Hall k a Hk). cbn in Hall.
    apply bool_decide_eq_false_1 in Hall. congruence.
  - apply bool_decide_eq_true_1 in Hb.
    assert (j = k) as ->.
    { apply (NoDup_lookup (uuid <$> apps) j k X); [done|..];
        rewrite list_lookup_fmap; [rewrite Hj|rewrite Hk]; cbn; congruence. }
    replace (Z.of_nat k >=? 0)%Z with true
      by (symmetry; rewrite Z.geb_leb; apply Z.leb_le; lia).
    unfold at_index.
    replace (Z.of_nat k <? 0)%Z with false
      by (symmetry; apply Z.ltb_ge; lia).
    by rewrite Nat2Z.id, Hk.
Qed.

Lemma not_elem_of_uuids apps X :
  X ∉ (uuid <$> apps) -> Forall (fun a => uuid a <> X) apps.
Proof.
  intros Hnot. apply Forall_forall. intros a Ha HX.
  apply Hnot, list_elem_of_fmap. by exists a.
Qed.

(** X8. In a registry with one entry per uuid, a call that does not close
    puts the entry it returns where the entry of that uuid was, the others
    staying where they are, or at the end when there was none. *)
Theorem updateApplication_in_place window application w o :
  heap w !! application = Some o ->
  is_closed o = false ->
  NoDup (uuid <$> registry w) ->
  exists r w' e,
    updateApplication window application w = Returns (val r, w') /\
    heap w' !! r = Some e /\
    uuid e = uuid o /\
    (forall k a, registry w !! k = Some a -> uuid a = uuid o ->
       registry w' = <[k := e]> (registry w)) /\
    (uuid o ∉ (uuid <$> registry w) -> registry w' = registry w ++ [e]).
Proof.
  intros Ho Hc Hunique.
  assert (application < length (heap w))%nat as Hlt
    by (by eapply lookup_lt_Some).
  destruct (updateApplication_after window application w o Ho)
    as (r & w' & Hrun & _ &
        [(Hc' & _)|(_ & merged & _ & Hr & Hheap & Hreg)]); [congruence|].
  cbv zeta in Hr, Hheap, Hreg. subst r.
  set (e := with_layout (spread_application _ _) _) in *.
  exists (length (heap w)), w', e.
  split; [exact Hrun|]. split.
  { rewrite Hheap, lookup_app_r; rewrite length_insert; [|done].
    by rewrite Nat.sub_diag. }
  split; [reflexivity|]. rewrite Hreg. split.
  - intros k a Hk Ha. by destruct (found_at _ _ k a e Hunique Hk Ha) as [_ ->].
  - intros Hnew%not_elem_of_uuids.
    by destruct (found_none _ _ e Hnew) as [_ ->].
Qed.

Lemma updateApplication_in_place_witness :
  exists r w' e,
    updateApplication None 0 world_reopen = Returns (val r, w') /\
    heap w' !! r = Some e /\
    uuid e = uuid patch_open /\
    registry world_reopen <> [] /\
    registry w' = <[0%nat := e]> (registry world_reopen).
Proof.
  destruct (updateApplication_in_place None 0 world_reopen patch_open)
    as (r & w' & e & Hrun & He & Hu & Hplace & _);
    [reflexivity|reflexivity|vm_compute; repeat constructor; set_solver|].
  exists r, w', e. split; [exact Hrun|]. split; [exact He|].
  split; [exact Hu|]. split; [discriminate|].
  eapply Hplace; reflexivity.
Defined.

Lemma elem_of_placed apps X e : e ∈ placed apps X e.
Proof.
  unfold placed.
  destruct (findIndex_spec (fun a => bool_decide (X = uuid a)) apps)
    as [[-> _]|(k & a & -> & Hk & _)].
  - change (-1 >=? 0)%Z with false. cbv iota. set_solver.
  - replace (Z.of_nat k >=? 0)%Z with true
      by (symmetry; rewrite Z.geb_leb; apply Z.leb_le; lia).
    rewrite Nat2Z.id. eapply list_elem_of_lookup_2.
    apply list_lookup_insert_eq. by eapply lookup_lt_Some.
Qed.

(** X9. In a registry with one entry per uuid, the entry a call returns
    is what [getApplications] with that uuid returns next, and nothing
    else. *)
Theorem updateApplication_then_get window application w o :
  heap w !! application = Some o ->
  is_closed o = false ->
  NoDup (uuid <$> registry w) ->
  exists r w' e,
    updateApplication window application w = Returns (val r, w') /\
    heap w' !! r = Some e /\
    getApplications undefined (val (uuid o)) w' = Returns ([e], w').
Proof.
  intros Ho Hc Hunique.
  assert (application < length (heap w))%nat as Hlt
    by (by eapply lookup_lt_Some).
  destruct (updateApplication_after window application w o Ho)
    as (r & w' & Hrun & _ &
        [(Hc' & _)|(_ & merged & _ & Hr & Hheap & Hreg)]); [congruence|].
  cbv zeta in Hr, Hheap, Hreg. subst r.
  set (e := with_layout (spread_application _ _) _) in *.
  exists (length (heap w)), w', e.
  split; [exact Hrun|]. split.
  { rewrite Hheap, lookup_app_r; rewrite length_insert; [|done].
    by rewrite Nat.sub_diag. }
  rewrite getApplications_run, Hreg. cbn [truthy js_truthy orb].
  set (apps := placed (registry w) (uuid o) e).
  assert (NoDup (uuid <$> apps)) as Hunique'.
  { subst apps.
    destruct (placed_uuids (registry w) (uuid o) e eq_refl)
      as [[_ ->]|[Hnew ->]]; [done|].
    apply NoDup_app. split; [done|]. split; [|apply NoDup_singleton].
    intros Y HY ->%list_elem_of_singleton. by apply Hnew. }
  pose proof (filter_uuid_length undefined (uuid o) _ Hunique') as Hlen.
  assert (In e (List.filter (matches undefined (val (uuid o))) apps)) as Hin.
  { apply filter_In. split; [apply list_elem_of_In, elem_of_placed|].
    unfold matches, strict_eq. cbn. by rewrite bool_decide_eq_true_2. }
  destruct (List.filter (matches undefined (val (uuid o))) apps)
    as [|e1 [|e2 rest]].
  - destruct Hin.
  - by destruct Hin as [->|[]].
  - cbn in Hlen. lia.
Qed.

Lemma updateApplication_then_get_witness :
  exists r w' e,
    updateApplication None 0 world_reopen = Returns (val r, w') /\
    heap w' !! r = Some e /\
    getApplications undefined (val (uuid patch_open)) w' = Returns ([e], w').
Proof.
  apply (updateApplication_then_get None 0 world_reopen patch_open);
    [reflexivity|reflexivity|vm_compute; repeat constructor; set_solver].
Defined.

(** X10. In a registry with one entry per uuid, the entry a call returns
    for a uuid that is stored has, for [state] and
    [applicationConfiguration], the value of the caller's object where the
    object has the key, an [undefined] one included, and the stored value
    where it has not. *)
Theorem updateApplication_shallow_merge window application w o a :
  heap w !! application = Some o ->
  is_closed o = false ->
  NoDup (uuid <$> registry w) ->
  a ∈ registry w ->
  uuid a = uuid o ->
  exists r w' e,
    updateApplication window application w = Returns (val r, w') /\
    heap w' !! r = Some e /\
    state e = match state o with Some v => Some v | None => state a end /\
    applicationConfiguration e =
      match applicationConfiguration o with
      | Some v => Some v
      | None => applicationConfiguration a
      end.
Proof.
  intros Ho Hc Hunique [k Hk]%list_elem_of_lookup_1 Ha.
  assert (application < length (heap w))%nat as Hlt
    by (by eapply lookup_lt_Some).
  destruct (updateApplication_after window application w o Ho)
    as (r & w' & Hrun & _ &
        [(Hc' & _)|(_ & merged & _ & Hr & Hheap & Hreg)]); [congruence|].
  cbv zeta in Hr, Hheap, Hreg. subst r.
  destruct (found_at (registry w) (uuid o) k a a Hunique Hk Ha) as [Hfound _].
  rewrite Hfound in Hheap.
  do 3 eexists. split; [exact Hrun|]. split.
  { rewrite Hheap, lookup_app_r; rewrite length_insert; [|done].
    by rewrite Nat.sub_diag. }
  split; reflexivity.
Qed.

Lemma updateApplication_shallow_merge_witness :
  exists r w' e,
    updateApplication None 0 world_move = Returns (val r, w') /\
    heap w' !! r = Some e /\
    state patch_move = None /\
    state e = Some (val {| status := Some (val OPEN) |}).
Proof.
  destruct (updateApplication_shallow_merge None 0 world_move patch_move
              (with_layout patch_open
                 (val (validated (read (layout patch_open))))))
    as (r & w' & e & Hrun & He & Hstate & _);
    [reflexivity|reflexivity|vm_compute; repeat constructor; set_solver
    |vm_compute; repeat constructor|reflexivity|].
  exists r, w', e. split; [exact Hrun|]. split; [exact He|].
  split; [reflexivity|exact Hstate].
Defined.

End one_call.

(** ** The size that is stored *)

Section within_default.

Implicit Types (window : option Window) (l lp : js LayoutType)
  (d r : LayoutType) (key : string).

(** Against the default layout of the moment, what [updateLayout]
    returns is not over in either direction. *)
Lemma updateLayout_not_over window l lp d r :
  buildDefaultLayout window None = Returns d ->
  updateLayout window l lp = Returns r ->
  gt (dig (val r) "dimension.height") (dig (val d) "dimension.height") = false /\
  gt (dig (val r) "dimension.width") (dig (val d) "dimension.width") = false.
Proof.
  intros Hd Hr.
  destruct (negb (truthy l) && negb (truthy lp))%bool eqn:Hsome.
  - unfold updateLayout in Hr. rewrite Hsome, Hd in Hr. injection Hr as <-.
    unfold gt. by rewrite !num_lt_irrefl.
  - destruct (updateLayout_run window l lp _ Hsome Hd) as (r' & Hr' & Hkeys).
    rewrite Hr in Hr'. injection Hr' as <-.
    destruct (clamped_keys d l lp) as (Hh & _ & Hw & _ & _).
    cbv zeta in Hh, Hw.
    rewrite !Hkeys by (unfold layout_keys; set_solver). split.
    + destruct (clamped d l lp "dimension.height") eqn:Hc;
        [unfold gt; by rewrite num_lt_irrefl|by rewrite <- Hh].
    + destruct (clamped d l lp "dimension.width") eqn:Hc;
        [unfold gt; by rewrite num_lt_irrefl|by rewrite <- Hw].
Qed.

(** X11. The layout [updateLayout] returns is never higher nor wider than
    the default layout of the moment, whatever is merged. *)
Theorem updateLayout_within_default window l lp :
  exists d r,
    buildDefaultLayout window None = Returns d /\
    updateLayout window l lp = Returns r /\
    gt (dig (val r) "dimension.height") (dig (val d) "dimension.height") = false /\
    gt (dig (val r) "dimension.width") (dig (val d) "dimension.width") = false.
Proof.
  destruct (buildDefaultLayout_no_argument window) as (dd & pd & Hd).
  destruct (updateLayout_returns window l lp) as [r Hr].
  eexists _, r. split; [exact Hd|]. split; [exact Hr|].
  by apply (updateLayout_not_over window l lp).
Qed.

Lemma num_ge_trans (a b c : number) :
  num_ge a b = true -> num_ge b c = true -> num_ge a c = true.
Proof.
  destruct a as [| |p|], b as [| |q|], c as [| |s|]; try done.
  rewrite !num_ge_Finite, !bool_decide_eq_true. intros Hqp Hsq.
  by apply (Qcle_trans _ q).
Qed.

(** A floored value stays within a bound that the candidate is not over
    and that the floor, a positive one, is within. *)
Lemma floor_within (v : js number) (h fl : number) :
  num_lt (int 0) fl = true ->
  num_ge h fl = true ->
  gt v (val h) = false ->
  num_ge h (Math_max (or_else v (val (int 0))) (val fl)) = true.
Proof.
  intros Hpos Hfl Hv.
  assert (h <> NaN /\ fl <> NaN) as [Hh Hf] by (by destruct h, fl).
  unfold or_else. destruct (truthy v) eqn:Ht.
  - destruct v as [| |n]; try discriminate.
    assert (n <> NaN) as Hn by (by intros ->).
    rewrite Math_max_numbers by done.
    destruct (num_lt n fl); [done|].
    unfold gt in Hv. cbn [ToNumber] in Hv. unfold num_ge. rewrite Hv.
    by destruct h, n.
  - rewrite Math_max_numbers, Hpos by done. done.
Qed.

(** X12. In a host whose window, if there is one, has sizes other than
    [NaN], the entry a call stores and returns is not higher and not wider
    than the default layout of the moment. *)
Theorem updateApplication_within_default window (application : ref)
  (w : world) (o : ApplicationManagerApplication) :
  window_sized window ->
  heap w !! application = Some o ->
  is_closed o = false ->
  exists d appUpdated w' e,
    buildDefaultLayout window None = Returns d /\
    updateApplication window application w = Returns (val appUpdated, w') /\
    heap w' !! appUpdated = Some e /\
    e ∈ registry w' /\
    ge (dig (val d) "dimension.height")
       (dig (read (layout e)) "dimension.height") = true /\
    ge (dig (val d) "dimension.width")
       (dig (read (layout e)) "dimension.width") = true.
Proof.
  intros Hsized Ho Hc.
  assert (application < length (heap w))%nat as Hlt
    by (by eapply lookup_lt_Some).
  destruct (updateApplication_after window application w o Ho)
    as (r & w' & Hrun & _ &
        [(Hc' & _)|(_ & merged & Hm & Hr & Hheap & Hreg)]); [congruence|].
  cbv zeta in Hr, Hheap, Hreg. subst r.
  set (e := with_layout (spread_application _ _) _) in *.
  destruct (buildDefaultLayout_no_argument window) as (dd & pd & Hd).
  set (d := {| dimension := Some (val dd); position := Some (val pd) |}) in *.
  destruct (updateLayout_not_over window _ _ d merged Hd Hm) as [Hh Hw].
  destruct (buildDefaultLayout_sizes window None d Hsized Hd)
    as (qh & qw & Eh & Ew & Hh1 & Hh2 & Hw1 & Hw2 & _).
  destruct (shrunk_range qh (Q2Qc (inject_Z 752)) (Q2Qc (inject_Z 1168)))
    as [Hh3 _]; [done..|].
  destruct (shrunk_range qw (Q2Qc (inject_Z 948)) (Q2Qc (inject_Z 1468)))
    as [Hw3 _]; [done..|].
  exists d, (length (heap w)), w', e. split; [exact Hd|]. split; [exact Hrun|].
  split.
  { rewrite Hheap, lookup_app_r; rewrite length_insert; [|done].
    by rewrite Nat.sub_diag. }
  split; [rewrite Hreg; apply elem_of_placed|].
  rewrite Eh, Ew in *. unfold ge. cbn [ToNumber].
  split; apply floor_within; try done.
  - apply (num_ge_trans _ (int 752)); [done|compute_done].
  - apply (num_ge_trans _ (int 948)); [done|compute_done].
Qed.

Lemma updateApplication_within_default_witness :
  exists d appUpdated w' e,
    buildDefaultLayout None None = Returns d /\
    updateApplication None 0 world_open = Returns (val appUpdated, w') /\
    heap w' !! appUpdated = Some e /\
    e ∈ registry w' /\
    ge (dig (val d) "dimension.height")
       (dig (read (layout e)) "dimension.height") = true /\
    ge (dig (val d) "dimension.width")
       (dig (read (layout e)) "dimension.width") = true.
Proof.
  apply (updateApplication_within_default None 0 world_open patch_open);
    [exact I|reflexivity|reflexivity].
Defined.

Lemma floor_under_default (h : number) (k K : Z) :
  num_ge h (int K) = true -> num_ge (int K) (int k) = true ->
  gt (val (int k)) (val h) = false.
Proof.
  intros HK Hk. pose proof (num_ge_trans _ _ _ HK Hk) as Hge.
  unfold gt. cbn [ToNumber]. unfold num_ge in Hge.
  destruct (num_lt h (int k)); [|done]. by destruct h.
Qed.

(** Merged again onto its validated self in the same host, a layout
    validates to the same. *)
Lemma validated_remerged window (merged merged2 d : LayoutType) :
  window_sized window ->
  buildDefaultLayout window None = Returns d ->
  gt (dig (val merged) "dimension.height") (dig (val d) "dimension.height") = false ->
  gt (dig (val merged) "dimension.width") (dig (val d) "dimension.width") = false ->
  updateLayout window (val merged) (val (validated (val merged))) =
    Returns merged2 ->
  validated (val merged2) = validated (val merged).
Proof.
  intros Hsized Hd Hh Hw Hm2.
  destruct (updateLayout_run window (val merged)
              (val (validated (val merged))) d eq_refl Hd)
    as (r & Hr & Hkeys).
  rewrite Hm2 in Hr. injection Hr as <-.
  destruct (buildDefaultLayout_sizes window None d Hsized Hd)
    as (qh & qw & Eh & Ew & Hh1 & Hh2 & Hw1 & Hw2 & _).
  destruct (shrunk_range qh (Q2Qc (inject_Z 752)) (Q2Qc (inject_Z 1168)))
    as [Hh3 _]; [done..|].
  destruct (shrunk_range qw (Q2Qc (inject_Z 948)) (Q2Qc (inject_Z 1468)))
    as [Hw3 _]; [done..|].
  assert (forall key, key ∈ layout_keys ->
            clamped d (val merged) (val (validated (val merged))) key = false)
    as Hfree.
  { destruct (clamped_keys d (val merged) (val (validated (val merged))))
      as (Hch & Hcy & Hcw & Hcx & Hcz). cbv zeta in Hch, Hcy, Hcw, Hcx.
    assert (gt (overlaid (dig (val (validated (val merged))) "dimension.height")
                  (dig (val merged) "dimension.height"))
               (dig (val d) "dimension.height") = false) as Hoh.
    { unfold overlaid.
      destruct (dig (val merged) "dimension.height") as [| |n] eqn:En;
        [| |exact Hh]; cbn [is_defined];
        rewrite (dig_validated _ _ 240%Z) by (unfold floor_keys; set_solver);
        (rewrite (floored_falsy _ _ 240%Z);
           [|unfold floor_keys; set_solver|by rewrite En]);
        rewrite Eh; (apply (floor_under_default _ _ 752); [done|compute_done]). }
    assert (gt (overlaid (dig (val (validated (val merged))) "dimension.width")
                  (dig (val merged) "dimension.width"))
               (dig (val d) "dimension.width") = false) as How.
    { unfold overlaid.
      destruct (dig (val merged) "dimension.width") as [| |n] eqn:En;
        [| |exact Hw]; cbn [is_defined];
        rewrite (dig_validated _ _ 300%Z) by (unfold floor_keys; set_solver);
        (rewrite (floored_falsy _ _ 300%Z);
           [|unfold floor_keys; set_solver|by rewrite En]);
        rewrite Ew; (apply (floor_under_default _ _ 948); [done|compute_done]). }
    intros key Hkey. each_layout_key Hkey; congruence. }
  assert (forall key k, (key, k) ∈ floor_keys ->
            floored (val merged2) key = floored (val merged) key) as Hfloor.
  { intros key k Hk.
    assert (key ∈ layout_keys) as Hkey
      by (pose proof Hk as Hk'; each_floor_key Hk'; unfold layout_keys;
          rewrite !elem_of_cons; auto 6).
    assert (is_defined (dig (val (validated (val merged))) key) = true) as HV
      by (by rewrite (dig_validated _ _ k Hk)).
    unfold floored at 1. rewrite (Hkeys key Hkey), (Hfree key Hkey).
    unfold overlaid.
    destruct (dig (val merged) key) as [| |n] eqn:En; cbn [is_defined];
      rewrite ?HV;
      [exact (floored_validated (val merged) key k Hk)
      |exact (floored_validated (val merged) key k Hk)
      |by unfold floored; rewrite En]. }
  change (validated (val merged2)) with {|
    dimension := Some (val {|
      height := Some (val (floored (val merged2) "dimension.height"));
      width := Some (val (floored (val merged2) "dimension.width"));
    |});
    position := Some (val {|
      x := Some (val (floored (val merged2) "position.x"));
      y := Some (val (floored (val merged2) "position.y"));
      z := Some null;
    |});
  |}.
  rewrite (Hfloor "dimension.height" 240%Z), (Hfloor "dimension.width" 300%Z),
    (Hfloor "position.x" 0%Z), (Hfloor "position.y" 0%Z);
    try reflexivity; unfold floor_keys; rewrite !elem_of_cons; auto 6.
Qed.

End within_default.

(** ** What every sequence of calls keeps *)

Section sequences.

Implicit Types (window : option Window) (w : world)
  (o a e : ApplicationManagerApplication)
  (apps : list ApplicationManagerApplication)
  (X : ApplicationExpansionUUIDEnum) (application : ref).

Section invariant.

Variable P : ApplicationManagerApplication -> Prop.

(** The entry a call stores has the property, if the entry it found had. *)
Hypothesis P_stored : forall o merged (app : js ApplicationManagerApplication),
  is_closed o = false ->
  (forall a, app = val a -> P a) ->
  P (with_layout (spread_application app (with_layout o (val merged)))
       (val (validated (val merged)))).

Lemma Forall_List_filter {A} (Q : A -> Prop) (p : A -> bool) (l : list A) :
  Forall Q l -> Forall Q (List.filter p l).
Proof.
  induction 1 as [|b l Hb _ IH]; [constructor|]. cbn.
  destruct (p b); [by constructor|done].
Qed.

Lemma found_stored apps X a : found apps X = val a -> a ∈ apps.
Proof.
  unfold found, at_index. destruct (_ <? 0)%Z; [discriminate|].
  destruct (apps !! _) as [b|] eqn:Hb; [|discriminate].
  intros [= <-]. by eapply list_elem_of_lookup_2.
Qed.

Lemma Forall_placed apps X e :
  Forall P apps -> P e -> Forall P (placed apps X e).
Proof.
  intros Happs He. unfold placed. destruct (_ >=? 0)%Z.
  - by apply Forall_insert.
  - apply Forall_app. split; [done|by constructor].
Qed.

Lemma updateApplication_keeps window application w o :
  heap w !! application = Some o ->
  Forall P (registry w) ->
  exists r w',
    updateApplication window application w = Returns (r, w') /\
    Forall P (registry w').
Proof using P_stored.
  intros Ho Hall.
  destruct (updateApplication_after window application w o Ho)
    as (r & w' & Hrun & _ &
        [(_ & _ & _ & Hreg)|(Hc & merged & _ & _ & _ & Hreg)]);
    exists r, w'; (split; [exact Hrun|]); rewrite Hreg.
  - by apply Forall_List_filter.
  - apply Forall_placed; [done|]. apply P_stored; [done|].
    intros a Ha%found_stored. rewrite Forall_forall in Hall. by apply Hall.
Qed.

Lemma updateApplications_keep
  (calls : list (option Window * ApplicationManagerApplication)) w :
  Forall P (registry w) ->
  exists w',
    updateApplications calls w = Returns (tt, w') /\ Forall P (registry w').
Proof using P_stored.
  revert w. induction calls as [|[window literal] calls IH]; intros w Hall.
  - by exists w.
  - cbn [updateApplications]. unfold mbind at 1, alloc.
    set (w0 := {| heap := heap w ++ [literal];
                  localStorage := localStorage w |}).
    destruct (updateApplication_keeps window (length (heap w)) w0 literal)
      as (r & w1 & Hrun & Hall1).
    { subst w0. cbn [heap]. by rewrite lookup_app_r, Nat.sub_diag. }
    { by rewrite <- (registry_same_storage w w0). }
    unfold mbind at 1. rewrite Hrun. by apply IH.
Qed.

End invariant.

Lemma getCurrentlyOpenedApplications_run w :
  getCurrentlyOpenedApplications w =
    Returns (List.filter (fun a => negb (is_closed a)) (registry w), w).
Proof.
  unfold getCurrentlyOpenedApplications, mbind.
  by rewrite getApplications_run.
Qed.

Lemma filter_all {A} (p : A -> bool) (l : list A) :
  Forall (fun b => p b = true) l -> List.filter p l = l.
Proof. induction 1 as [|b l Hb _ IH]; [done|]. cbn. by rewrite Hb, IH. Qed.

(** X13. No entry of state [CLOSED] is ever stored: from a registry
    without one, every sequence of calls leaves a registry without one, and
    [getCurrentlyOpenedApplications] then returns what [getApplications]
    without a filter returns. *)
Theorem updateApplications_none_closed
  (calls : list (option Window * ApplicationManagerApplication)) w :
  Forall (fun e => is_closed e = false) (registry w) ->
  exists w',
    updateApplications calls w = Returns (tt, w') /\
    Forall (fun e => is_closed e = false) (registry w') /\
    getCurrentlyOpenedApplications w' = getApplications undefined undefined w'.
Proof.
  intros Hall.
  destruct (updateApplications_keep (fun e => is_closed e = false))
    with (calls := calls) (w := w) as (w' & Hrun & Hall'); [|done|].
  - intros o merged app Hc Happ. unfold is_closed in *.
    destruct o as [c l [s|] u]; cbn in *; [by destruct app|].
    destruct app as [| |a]; try done. by apply (Happ a).
  - exists w'. split; [exact Hrun|]. split; [exact Hall'|].
    rewrite getCurrentlyOpenedApplications_run, getApplications_run.
    cbn [truthy js_truthy orb]. do 2 f_equal. apply filter_all.
    eapply Forall_impl; [exact Hall'|]. by intros e ->.
Qed.

Lemma updateApplications_none_closed_witness :
  exists w',
    updateApplications
      [(None, patch_open); (None, patch_move); (None, patch_close);
       (Some window_800_by_1600, patch_move)]
      {| heap := []; localStorage := ∅ |} = Returns (tt, w') /\
    Forall (fun e => is_closed e = false) (registry w') /\
    getCurrentlyOpenedApplications w' = getApplications undefined undefined w'.
Proof.
  apply (updateApplications_none_closed
           [(None, patch_open); (None, patch_move); (None, patch_close);
            (Some window_800_by_1600, patch_move)]
           {| heap := []; localStorage := ∅ |}).
  vm_compute. constructor.
Defined.

(** X14. Every stored layout keeps the floors: from a registry whose
    entries are at least 240 high and 300 wide at [x >= 0] and [y >= 0],
    the empty one for instance, every sequence of calls leaves such a
    registry. *)
Theorem updateApplications_floors
  (calls : list (option Window * ApplicationManagerApplication)) w :
  Forall floors_hold (registry w) ->
  exists w',
    updateApplications calls w = Returns (tt, w') /\
    Forall floors_hold (registry w').
Proof.
  apply updateApplications_keep.
  intros o merged app _ _ key k Hk. cbn [layout with_layout read].
  rewrite (dig_validated _ _ _ Hk). unfold ge. cbn [ToNumber].
  by apply floored_ge.
Qed.

Lemma updateApplications_floors_witness :
  exists w',
    updateApplications
      [(None, patch_open); (None, patch_move); (None, patch_close);
       (Some window_800_by_1600, patch_move)]
      {| heap := []; localStorage := ∅ |} = Returns (tt, w') /\
    Forall floors_hold (registry w').
Proof.
  apply (updateApplications_floors
           [(None, patch_open); (None, patch_move); (None, patch_close);
            (Some window_800_by_1600, patch_move)]
           {| heap := []; localStorage := ∅ |}).
  vm_compute. constructor.
Defined.

(** X15. [closeApplication] always returns; it leaves in the registry the
    entries of the other uuids, in their order, so that [getApplications]
    with the uuid returns nothing; it writes to no other key of the store;
    and closing once more changes nothing in the registry. *)
Theorem closeApplication_removes window X w :
  exists w',
    closeApplication window X w = Returns (tt, w') /\
    registry w' = List.filter (other_than X) (registry w) /\
    getApplications undefined (val X) w' = Returns ([], w') /\
    (forall key, key <> LOCAL_STORAGE_KEY_APPLICATION_MANAGER ->
       localStorage w' !! key = localStorage w !! key) /\
    exists w'',
      closeApplication window X w' = Returns (tt, w'') /\
      registry w'' = registry w'.
Proof.
  assert (forall w0, exists w1,
            closeApplication window X w0 = Returns (tt, w1) /\
            registry w1 = List.filter (other_than X) (registry w0) /\
            (forall key, key <> LOCAL_STORAGE_KEY_APPLICATION_MANAGER ->
               localStorage w1 !! key = localStorage w0 !! key)) as Hclose.
  { intros w0. unfold closeApplication, mbind at 1, alloc.
    unfold mbind at 1. erewrite updateApplication_close; [|
      cbn [heap]; by rewrite lookup_app_r, Nat.sub_diag|reflexivity].
    eexists. split; [reflexivity|]. rewrite registry_set. split.
    - reflexivity.
    - intros key Hkey. cbn. by rewrite lookup_insert_ne. }
  destruct (Hclose w) as (w' & Hrun & Hreg & Hkeys).
  exists w'. split; [exact Hrun|]. split; [exact Hreg|]. split; [|split].
  - rewrite getApplications_run, Hreg. cbn [truthy js_truthy orb].
    by rewrite filter_uuid_none.
  - exact Hkeys.
  - destruct (Hclose w') as (w'' & Hrun' & Hreg' & _).
    exists w''. split; [exact Hrun'|].
    rewrite Hreg', Hreg. apply filter_filter_same.
Qed.

End sequences.

(** ** The same call twice *)

Section twice.

Implicit Types (window : option Window) (w : world)
  (o a e : ApplicationManagerApplication)
  (apps : list ApplicationManagerApplication)
  (X : ApplicationExpansionUUIDEnum) (application : ref).

Lemma NoDup_placed apps X e :
  NoDup (uuid <$> apps) -> uuid e = X -> NoDup (uuid <$> placed apps X e).
Proof.
  intros Hunique He.
  destruct (placed_uuids apps X e He) as [[_ ->]|[Hnew ->]]; [done|].
  apply NoDup_app. split; [done|]. split; [|apply NoDup_singleton].
  intros Y HY ->%list_elem_of_singleton. by apply Hnew.
Qed.

Lemma overlay_twice {A} (p q : prop A) : overlay (overlay p q) q = overlay p q.
Proof. by destruct q. Qed.

(** X16. In a registry with one entry per uuid and a host whose window
    sizes are not [NaN], a call that does not close, made a second time
    with the same object in the same host, returns an entry equal to the
    first and leaves the registry as the first call left it. *)
Theorem updateApplication_twice window application w o :
  window_sized window ->
  heap w !! application = Some o ->
  is_closed o = false ->
  NoDup (uuid <$> registry w) ->
  exists first w1 second w2 e,
    updateApplication window application w = Returns (val first, w1) /\
    heap w1 !! first = Some e /\
    updateApplication window application w1 = Returns (val second, w2) /\
    heap w2 !! second = Some e /\
    registry w2 = registry w1.
Proof.
  intros Hsized Ho Hc Hunique.
  assert (application < length (heap w))%nat as Hlt
    by (by eapply lookup_lt_Some).
  destruct (updateApplication_after window application w o Ho)
    as (r1 & w1 & Hrun1 & _ &
        [(Hc' & _)|(_ & merged & Hm & Hr1 & Hheap1 & Hreg1)]); [congruence|].
  cbv zeta in Hr1, Hheap1, Hreg1. subst r1.
  set (o1 := with_layout o (val merged)) in *.
  set (e1 := with_layout (spread_application _ o1) _) in *.
  assert (heap w1 !! application = Some o1) as Ho1.
  { rewrite Hheap1, lookup_app_l by (by rewrite length_insert).
    by apply list_lookup_insert_eq. }
  assert (heap w1 !! length (heap w) = Some e1) as He1.
  { rewrite Hheap1, lookup_app_r; rewrite length_insert; [|done].
    by rewrite Nat.sub_diag. }
  assert (NoDup (uuid <$> registry w1)) as Hunique1
    by (rewrite Hreg1; by apply NoDup_placed).
  assert (e1 ∈ registry w1) as [k Hk]%list_elem_of_lookup_1
    by (rewrite Hreg1; apply elem_of_placed).
  destruct (updateApplication_after window application w1 o1 Ho1)
    as (r2 & w2 & Hrun2 & _ &
        [(Hc' & _)|(_ & merged2 & Hm2 & Hr2 & Hheap2 & Hreg2)]);
    [change (is_closed o1) with (is_closed o) in Hc'; congruence|].
  cbv zeta in Hr2, Hheap2, Hreg2. subst r2.
  change (uuid o1) with (uuid o) in *.
  set (e2 := with_layout (spread_application _ _) _) in Hheap2, Hreg2.
  destruct (found_at (registry w1) (uuid o) k e1 e2 Hunique1 Hk eq_refl)
    as [Hfound Hplaced].
  rewrite Hfound in Hm2. cbn [chain read layout with_layout o1 e1] in Hm2.
  destruct (buildDefaultLayout_no_argument window) as (dd & pd & Hd).
  destruct (updateLayout_not_over window _ _ _ merged Hd Hm) as [Hh Hw].
  pose proof (validated_remerged window merged merged2 _ Hsized Hd Hh Hw Hm2)
    as Hsame.
  assert (e2 = e1) as He2.
  { subst e2. rewrite Hfound, Hsame. subst e1 o1.
    unfold spread_application, with_layout. cbn.
    destruct (found (registry w) (uuid o)); cbn; by rewrite ?overlay_twice. }
  exists (length (heap w)), w1, (length (heap w1)), w2, e1.
  split; [exact Hrun1|]. split; [exact He1|]. split; [exact Hrun2|]. split.
  - rewrite Hheap2, lookup_app_r; rewrite length_insert; [|done].
    by rewrite Nat.sub_diag, He2.
  - rewrite Hreg2, Hplaced, He2. by apply list_insert_id.
Qed.

Lemma updateApplication_twice_witness :
  exists first w1 second w2 e,
    updateApplication None 0 world_move = Returns (val first, w1) /\
    heap w1 !! first = Some e /\
    updateApplication None 0 w1 = Returns (val second, w2) /\
    heap w2 !! second = Some e /\
    registry w2 = registry w1.
Proof.
  apply (updateApplication_twice None 0 world_move patch_move);
    [exact I|reflexivity|reflexivity|vm_compute; repeat constructor; set_solver].
Defined.

End twice.
